(** * go-bart/api: the BART API client, embedded and verified

    A shallow embedding of [api/api.go] (package [bartapi]).

    Go strings are byte strings, so they are Rocq [string]s; a [[]byte] is a
    [list byte]; a [map[string]string] is a [gmap string string] (the nil map
    is the empty map: ranging over it runs the loop body zero times); an
    [error] that may be nil is an [option error].

    [Pull] talks to three things the package does not own: the runtime (which
    picks the order of a [range] over a map), the HTTP stack, and the response
    body it has to close.  Those are the [call]s of a small free monad [Go];
    a [handler] is an arbitrary environment answering them, and every theorem
    about [Pull] quantifies over all handlers and all worlds.

    [Decode] rests on an XML decoder and a charset layer that are libraries
    outside the repository; they are modelled from the specification, and
    every definition of that model says so. *)

From Stdlib Require Import ZArith Strings.Byte Strings.Ascii Strings.String.
From stdpp Require Import base strings gmap list.

(** ** Values that cross the package boundary *)

(** Go [error] values.  The package creates none itself: it hands on the ones
    of [net/http], [io] and [encoding/xml]. *)
Inductive error : Type :=
| io_EOF                                   (* io.EOF *)
| url_Error (Op URL Err : string)          (* *url.Error, what http.Get fails with *)
| net_Error (msg : string)                 (* a read failing on the connection *)
| xml_SyntaxError (Msg : string)           (* *xml.SyntaxError *)
| xml_UnmarshalError (Msg : string)        (* xml.UnmarshalError *)
| errors_New (msg : string)                (* errors.New / fmt.Errorf *)
| xml_charset (enc : string) (err : error). (* the charset layer refusing [enc] *)

(** An [io.Reader] (and [io.ReadCloser]): a finite stream that delivers [data]
    and then ends, with [io.EOF] when [fault] is [None] and with the error
    [e] when it is [Some e]. *)
Record Reader : Type := mkReader { data : list byte; fault : option error }.

(** [bytes.NewReader(b)] *)
Definition bytes_NewReader (b : list byte) : Reader := mkReader b None.

(** [ioutil.ReadAll]: everything read until the stream ends; [io.EOF] is not
    reported as an error, any other error is returned with what was read. *)
Definition ioutil_ReadAll (r : Reader) : list byte * option error :=
  (data r, fault r).

(** The part of [http.Response] the package could look at. *)
Record Response : Type := mkResponse { StatusCode : Z; Body : Reader }.

(** ** fmt.Sprintf and bytes.Buffer *)

Module fmt.

(** What [Sprintf] appends for operands the format did not consume. *)
Fixpoint extra (args : list string) : string :=
  match args with
  | [] => ""
  | [a] => "string=" +:+ a
  | a :: args' => "string=" +:+ a +:+ ", " +:+ extra args'
  end.

Fixpoint format_ (f : string) (args : list string) : string :=
  match f with
  | "" => match args with [] => "" | _ => "%!(EXTRA " +:+ extra args +:+ ")" end
  | String "%"%char (String "v"%char f') =>
      match args with
      | a :: args' => a +:+ format_ f' args'
      | [] => "%!v(MISSING)" +:+ format_ f' []
      end
  | String ch f' => String ch (format_ f' args)
  end.

(** [fmt.Sprintf] for the [%v] verb and string operands, the only use the
    package makes of it: the operand's bytes are copied as they are. *)
Definition Sprintf (f : string) (args : list string) : string := format_ f args.

End fmt.

Module bytes.

(** [bytes.Buffer]: the bytes written so far; the zero value is empty. *)
Definition Buffer : Type := string.
Definition zero : Buffer := "".
Definition WriteString (b : Buffer) (s : string) : Buffer := b +:+ s.
Definition String (b : Buffer) : string := b.

End bytes.

(** ** Calls that leave the package *)

Inductive call : Type → Type :=
| MapRange (m : gmap string string) : call (list (string * string))
    (* the runtime fixes the order in which [range m] yields the entries *)
| http_Get (url : string) : call (Response + error)
    (* net/http.Get *)
| Body_Close (b : Reader) : call (option error).
    (* resp.Body.Close() *)

Inductive Go (A : Type) : Type :=
| Ret (a : A)
| Call {X : Type} (e : call X) (k : X → Go A).
Arguments Ret {A} a.
Arguments Call {A X} e k.

Fixpoint Go_bind {A B : Type} (f : A → Go B) (m : Go A) : Go B :=
  match m with
  | Ret a => f a
  | Call e k => Call e (λ x, Go_bind f (k x))
  end.

(** What an environment did: each call with the answer it gave. *)
Inductive event : Type :=
| ev_range (m : gmap string string) (kvs : list (string * string))
| ev_Get (url : string) (r : Response + error)
| ev_Close (b : Reader) (r : option error).

Definition answered {X : Type} (e : call X) : X → event :=
  match e with
  | MapRange m => ev_range m
  | http_Get url => ev_Get url
  | Body_Close b => ev_Close b
  end.

(** An environment with states [W]. *)
Definition handler (W : Type) : Type := ∀ X : Type, call X → W → X * W.

Record outcome (A W : Type) : Type :=
  mkOutcome { result : A; world : W; trace : list event }.
Arguments mkOutcome {A W} result world trace.
Arguments result {A W} o.
Arguments world {A W} o.
Arguments trace {A W} o.

Fixpoint run_from {A W : Type} (h : handler W) (p : Go A) (w : W)
    (tr : list event) : outcome A W :=
  match p with
  | Ret a => mkOutcome a w tr
  | Call e k =>
      let '(x, w') := h _ e w in run_from h (k x) w' (tr ++ [answered e x])
  end.

Definition run {A W : Type} (h : handler W) (p : Go A) (w : W) : outcome A W :=
  run_from h p w [].

(** The targets of the GET requests in a trace, in order. *)
Definition requests (tr : list event) : list string :=
  omap (λ ev, match ev with ev_Get url _ => Some url | _ => None end) tr.

(** The law of Go's [range] over a map that is not modified meanwhile: every
    entry is produced exactly once, in an order the runtime chooses. *)
Definition range_law {W : Type} (h : handler W) : Prop :=
  ∀ (m : gmap string string) (w : W), (h _ (MapRange m) w).1 ≡ₚ map_to_list m.

(** ** The XML decoder and the charset layer

    [Decode] is three lines over [encoding/xml] and [go-charset], which are
    not part of the repository: it makes a decoder on the stream, installs
    the charset layer and returns what the decoder returns.  What they do is
    modelled here from the specification of the decoder: a streaming parser
    of XML 1.0 documents, byte by byte, and the structural mapping of the
    elements into a target.

    The parser reads an optional XML declaration at the very start of the
    stream, comments, processing instructions, a document type declaration
    (passed over with its quotes and angle brackets balanced; a comment
    inside it is not told from the declarations around it), elements with
    attributes, empty-element tags, character data with the five predefined
    entities and with character references, and CDATA sections.  It checks
    what makes a document well formed: tags that match, names, attributes
    that are quoted and not repeated, references that stand for something,
    no [<] in a value, no [--] in a comment, no []]>] in text, and text that
    is UTF-8 of characters of XML; line ends are normalised.  Names are
    taken whole, a prefix included; entities a document type declaration
    declares are not known to it. *)

Module charset.

(** Modelled from the spec: the charset layer, which is not part of the
    repository: given a declared encoding name and a raw byte stream,
    produce a stream of Unicode text, or fail when the name is not
    recognised.  This is the type of [charset.NewReader]. *)
Definition Layer : Type := string → Reader → Reader + error.

End charset.

Module xml.

(** *** Bytes *)

(** Modelled from the spec: [b] is the byte [c]. *)
Definition byte_is (c b : byte) : bool := Byte.eqb b c.

(** Modelled from the spec: [b] lies in the range of bytes [lo .. hi]. *)
Definition between (lo hi b : byte) : bool :=
  ((Byte.to_N lo <=? Byte.to_N b) && (Byte.to_N b <=? Byte.to_N hi))%N.

(** Modelled from the spec: white space of XML, which the spec leaves to the
    XML parser: space, tab, line feed, carriage return. *)
Definition isSpace (b : byte) : bool :=
  byte_is " " b || byte_is "009" b || byte_is "010" b || byte_is "013" b.

(** Modelled from the spec: the bytes a name starts with (the spec leaves
    names to the XML parser): a letter, an underscore, a colon, or a byte of
    a character outside ASCII. *)
Definition isNameStart (b : byte) : bool :=
  between "A" "Z" b || between "a" "z" b || byte_is "_" b || byte_is ":" b
  || (128 <=? Byte.to_N b)%N.

(** Modelled from the spec: the bytes a name goes on with. *)
Definition isNameByte (b : byte) : bool :=
  isNameStart b || between "0" "9" b || byte_is "." b || byte_is "-" b.

(** Modelled from the spec: a name. *)
Definition isName (n : list byte) : bool :=
  match n with
  | [] => false
  | b :: n' => isNameStart b && forallb isNameByte n'
  end.

(** *** Characters *)

(** Modelled from the spec: where a UTF-8 sequence stands: between two
    characters, [n] continuation bytes short with the next one in
    [lo .. hi], or inside one of the sequences EF .. and EF BF .., which hold
    the two code points FFFE and FFFF that are no characters of XML. *)
Inductive utf8_state : Type :=
| Boundary
| Continuation (n : nat) (lo hi : N)
| AfterEF
| AfterEFBF.

(** Modelled from the spec: one more byte of text: well-formed UTF-8 (no
    overlong forms, no surrogates, nothing above 10FFFF) of characters of
    XML (of the control characters only tab, line feed and carriage
    return; not FFFE, FFFF). *)
Definition utf8_step (st : utf8_state) (b : byte) : option utf8_state :=
  let c := Byte.to_N b in
  match st with
  | Boundary =>
      if (c <? 0x80)%N then
        if ((0x20 <=? c) || (c =? 9) || (c =? 10) || (c =? 13))%N
        then Some Boundary else None
      else if ((0xC2 <=? c) && (c <=? 0xDF))%N then Some (Continuation 1 0x80 0xBF)
      else if (c =? 0xE0)%N then Some (Continuation 2 0xA0 0xBF)
      else if (c =? 0xED)%N then Some (Continuation 2 0x80 0x9F)
      else if (c =? 0xEF)%N then Some AfterEF
      else if ((0xE1 <=? c) && (c <=? 0xEE))%N then Some (Continuation 2 0x80 0xBF)
      else if (c =? 0xF0)%N then Some (Continuation 3 0x90 0xBF)
      else if ((0xF1 <=? c) && (c <=? 0xF3))%N then Some (Continuation 3 0x80 0xBF)
      else if (c =? 0xF4)%N then Some (Continuation 3 0x80 0x8F)
      else None
  | Continuation n lo hi =>
      if ((lo <=? c) && (c <=? hi))%N
      then Some (match n with
                 | S (S n') => Continuation (S n') 0x80 0xBF
                 | _ => Boundary
                 end)
      else None
  | AfterEF =>
      if ((0x80 <=? c) && (c <=? 0xBE))%N then Some (Continuation 1 0x80 0xBF)
      else if (c =? 0xBF)%N then Some AfterEFBF
      else None
  | AfterEFBF =>
      if ((0x80 <=? c) && (c <=? 0xBD))%N then Some Boundary else None
  end.

(** Modelled from the spec: [s] completes a text from the state [st]. *)
Fixpoint utf8_from (st : utf8_state) (s : list byte) : bool :=
  match s with
  | [] => match st with Boundary => true | _ => false end
  | b :: s' =>
      match utf8_step st b with
      | Some st' => utf8_from st' s'
      | None => false
      end
  end.

(** Modelled from the spec: the text the decoder accepts without a declared
    encoding is UTF-8, of characters of XML. *)
Definition utf8_valid (s : list byte) : bool := utf8_from Boundary s.

(** Modelled from the spec: a code point that is a character of XML. *)
Definition isChar (c : N) : bool :=
  ((c =? 9) || (c =? 10) || (c =? 13) || ((0x20 <=? c) && (c <=? 0xD7FF))
   || ((0xE000 <=? c) && (c <=? 0xFFFD)) || ((0x10000 <=? c) && (c <=? 0x10FFFF)))%N.

(** Modelled from the spec: the byte with the value [n]. *)
Definition byte_of (n : N) : byte := default x00 (Byte.of_N n).

(** Modelled from the spec: a code point in UTF-8. *)
Definition utf8_encode (c : N) : list byte :=
  if (c <? 0x80)%N then [byte_of c]
  else if (c <? 0x800)%N then [byte_of (0xC0 + c / 64); byte_of (0x80 + c mod 64)]
  else if (c <? 0x10000)%N then
    [byte_of (0xE0 + c / 4096); byte_of (0x80 + (c / 64) mod 64);
     byte_of (0x80 + c mod 64)]
  else
    [byte_of (0xF0 + c / 262144); byte_of (0x80 + (c / 4096) mod 64);
     byte_of (0x80 + (c / 64) mod 64); byte_of (0x80 + c mod 64)].

(** *** References *)

(** Modelled from the spec: the value of a digit, decimal or hexadecimal. *)
Definition digit (hex : bool) (b : byte) : option N :=
  let c := Byte.to_N b in
  if between "0" "9" b then Some (c - 48)%N
  else if hex && between "a" "f" b then Some (c - 87)%N
  else if hex && between "A" "F" b then Some (c - 55)%N
  else None.

(** Modelled from the spec: the number the digits [ds] write after [acc]. *)
Fixpoint number (hex : bool) (acc : N) (ds : list byte) : option N :=
  match ds with
  | [] => Some acc
  | b :: ds' =>
      match digit hex b with
      | Some d => number hex (acc * (if hex then 16 else 10) + d)%N ds'
      | None => None
      end
  end.

(** Modelled from the spec: a character reference: the digits have to be
    there and to write a character of XML. *)
Definition char_ref (hex : bool) (ds : list byte) : option (list byte) :=
  match ds with
  | [] => None
  | _ =>
      match number hex 0 ds with
      | Some c => if isChar c then Some (utf8_encode c) else None
      | None => None
      end
  end.

(** Modelled from the spec: what stands for the reference [&name;]: one of
    the five entities every parser knows, or a character by its number. *)
Definition resolve (name : list byte) : option (list byte) :=
  match name with
  | b1 :: rest =>
      if byte_is "#" b1 then
        match rest with
        | b2 :: ds => if byte_is "x" b2 then char_ref true ds else char_ref false rest
        | [] => None
        end
      else
        let n := string_of_list_byte name in
        if String.eqb n "lt" then Some ["<"%byte]
        else if String.eqb n "gt" then Some [">"%byte]
        else if String.eqb n "amp" then Some ["&"%byte]
        else if String.eqb n "apos" then Some ["'"%byte]
        else if String.eqb n "quot" then Some ["034"%byte]
        else None
  | [] => None
  end.

(** Modelled from the spec: the bytes a reference is written with. *)
Definition isRefByte (b : byte) : bool :=
  between "A" "Z" b || between "a" "z" b || between "0" "9" b || byte_is "#" b.

(** Modelled from the spec: names of encodings and the reserved target are
    compared without regard to the case of ASCII letters. *)
Definition lower (a : ascii) : ascii :=
  let n := Ascii.N_of_ascii a in
  if ((65 <=? n) && (n <=? 90))%N then Ascii.ascii_of_N (n + 32) else a.

(** Modelled from the spec: [s] with its ASCII letters in lower case. *)
Fixpoint to_lower (s : string) : string :=
  match s with
  | "" => ""
  | String a s' => String (lower a) (to_lower s')
  end.

(** *** Tokens *)

(** Modelled from the spec: the tokens of the streaming parse the spec
    assumes: element nesting and the text between. *)
Inductive Token : Type :=
| StartElement (Name : string)
| EndElement (Name : string)
| CharData (d : list byte).

(** Modelled from the spec: where the scanner stands between two bytes. *)
Inductive mode : Type :=
| Text (buf : list byte) (cr : bool) (br : nat)
    (* in character data: the text so far, whether a carriage return came
       last, the closing brackets that came last *)
| TextRef (buf : list byte) (name : list byte)      (* in a reference in text *)
| Lt                                                (* after < *)
| Bang                                              (* after <! *)
| BangDash                                          (* after <!- *)
| Comment (dashes : nat)                            (* in a comment *)
| CDataOpen (n : nat)                               (* after <![ and n bytes of CDATA[ *)
| CData (buf : list byte) (cr : bool) (br : nat)    (* in a CDATA section *)
| Directive (depth : nat) (quote : option byte)     (* in a directive *)
| PITarget (buf : list byte)                        (* in the target after <? *)
| PIData (qm : bool)                                (* in a processing instruction *)
| StartName (buf : list byte)                       (* in the name of a start tag *)
| StartAfter (name : string) (seen : list string)   (* after the name or an attribute *)
| StartSpace (name : string) (seen : list string)   (* after white space in a start tag *)
| StartSlash (name : string)                        (* after the / of an empty-element tag *)
| AttrName (name : string) (seen : list string) (buf : list byte)
| AttrNameSpace (name : string) (seen : list string) (* after the name of an attribute *)
| AttrEq (name : string) (seen : list string)       (* after the = of an attribute *)
| AttrValue (name : string) (seen : list string) (q : byte) (val : list byte)
| AttrRef (name : string) (seen : list string) (q : byte) (val : list byte)
    (ref : list byte)                               (* in a reference in a value *)
| EndName (buf : list byte)                         (* in the name of an end tag *)
| EndSpace (name : string).                         (* after the name of an end tag *)

(** Modelled from the spec: what a step of the scanner gives: the tokens that
    are complete, the new mode and the elements now open, or the error the
    document has there. *)
Definition stepped : Type := (list Token * mode * list string) + error.

(** Modelled from the spec: character data becomes a token when it ends; it
    has to be text by then. *)
Definition emit_text (buf : list byte) : list Token + error :=
  match buf with
  | [] => inl []
  | _ => if utf8_valid buf then inl [CharData buf]
         else inr (xml_SyntaxError "invalid UTF-8 or illegal character")
  end.

(** Modelled from the spec: the scanner between two pieces of markup. *)
Definition fresh : mode := Text [] false 0.

(** Modelled from the spec: an end tag has to close the element that is
    open (well-formedness). *)
Definition close (name : string) (stk : list string) : stepped :=
  match stk with
  | [] => inr (xml_SyntaxError ("unexpected end element </" +:+ name +:+ ">"))
  | top :: stk' =>
      if String.eqb top name then inl ([EndElement name], fresh, stk')
      else inr (xml_SyntaxError
                  ("element <" +:+ top +:+ "> closed by </" +:+ name +:+ ">"))
  end.

(** Modelled from the spec: line ends are normalised: a carriage return reads
    as a line feed, and a line feed after a carriage return is dropped. *)
Definition line_end (buf : list byte) (cr : bool) (b : byte) : list byte * bool :=
  if byte_is "013" b then (buf ++ ["010"%byte], true)
  else if cr && byte_is "010" b then (buf, false)
  else (buf ++ [b], false).

(** Modelled from the spec: the closing brackets in a row after [b]. *)
Definition brackets (br : nat) (b : byte) : nat :=
  if byte_is "]" b then S br else 0.

(** Modelled from the spec: a byte in a directive: quoted text is passed
    over, brackets nest, and the [>] that closes the directive ends it. *)
Definition directive (depth : nat) (quote : option byte) (stk : list string)
    (b : byte) : stepped :=
  match quote with
  | Some q =>
      inl ([], Directive depth (if Byte.eqb b q then None else Some q), stk)
  | None =>
      if byte_is ">" b then
        match depth with
        | 0 => inl ([], fresh, stk)
        | S depth' => inl ([], Directive depth' None, stk)
        end
      else if byte_is "'" b || byte_is "034" b then inl ([], Directive depth (Some b), stk)
      else if byte_is "<" b then inl ([], Directive (S depth) None, stk)
      else inl ([], Directive depth None, stk)
  end.

(** Modelled from the spec: a byte in a start tag after its name or after an
    attribute; [spaced] says that white space came before. *)
Definition in_tag (name : string) (seen : list string) (spaced : bool)
    (stk : list string) (b : byte) : stepped :=
  if isSpace b then inl ([], StartSpace name seen, stk)
  else if byte_is ">" b then inl ([StartElement name], fresh, name :: stk)
  else if byte_is "/" b then inl ([], StartSlash name, stk)
  else if spaced && isNameStart b then inl ([], AttrName name seen [b], stk)
  else inr (xml_SyntaxError "expected attribute name in element").

(** Modelled from the spec: the name of an attribute is complete: no element
    has two attributes of one name. *)
Definition attr_named (name : string) (seen : list string) (a : string)
    (stk : list string) (b : byte) : stepped :=
  if bool_decide (a ∈ seen)
  then inr (xml_SyntaxError ("duplicate attribute " +:+ a))
  else if isSpace b then inl ([], AttrNameSpace name (a :: seen), stk)
  else if byte_is "=" b then inl ([], AttrEq name (a :: seen), stk)
  else inr (xml_SyntaxError "attribute name without = in element").

(** Modelled from the spec: the target of a processing instruction is
    complete: [xml] is reserved for the declaration at the start. *)
Definition pi_named (target : string) (stk : list string) (b : byte) : stepped :=
  if String.eqb (to_lower target) "xml"
  then inr (xml_SyntaxError "XML declaration not at the start of the document")
  else if isSpace b then inl ([], PIData false, stk)
  else if byte_is "?" b then inl ([], PIData true, stk)
  else inr (xml_SyntaxError "invalid character in processing instruction target").

(** Modelled from the spec: the scanner reads one byte: the tokens that are
    complete with it, the new mode and the elements now open, or the error
    the document has at this byte. *)
Definition step (m : mode) (stk : list string) (b : byte) : stepped :=
  match m with
  | Text buf cr br =>
      if byte_is "<" b then
        match emit_text buf with
        | inl ts => inl (ts, Lt, stk)
        | inr e => inr e
        end
      else if byte_is "&" b then inl ([], TextRef buf [], stk)
      else if byte_is ">" b && Nat.leb 2 br then
        inr (xml_SyntaxError "unescaped ]]> not in CDATA section")
      else
        let '(buf', cr') := line_end buf cr b in
        inl ([], Text buf' cr' (brackets br b), stk)
  | TextRef buf name =>
      if byte_is ";" b then
        match resolve name with
        | Some val => inl ([], Text (buf ++ val) false 0, stk)
        | None => inr (xml_SyntaxError "invalid character entity")
        end
      else if isRefByte b then inl ([], TextRef buf (name ++ [b]), stk)
      else inr (xml_SyntaxError "invalid character entity (no semicolon)")
  | Lt =>
      if byte_is "/" b then inl ([], EndName [], stk)
      else if byte_is "?" b then inl ([], PITarget [], stk)
      else if byte_is "!" b then inl ([], Bang, stk)
      else if isNameStart b then inl ([], StartName [b], stk)
      else inr (xml_SyntaxError "expected element name after <")
  | Bang =>
      if byte_is "-" b then inl ([], BangDash, stk)
      else if byte_is "[" b then inl ([], CDataOpen 0, stk)
      else
        match stk with
        | [] => directive 0 None stk b
        | _ :: _ => inr (xml_SyntaxError "directive inside an element")
        end
  | BangDash =>
      if byte_is "-" b then inl ([], Comment 0, stk)
      else inr (xml_SyntaxError "invalid sequence <!- not part of <!--")
  | Comment dashes =>
      if Nat.leb 2 dashes then
        if byte_is ">" b then inl ([], fresh, stk)
        else inr (xml_SyntaxError "invalid sequence -- not allowed in comments")
      else if byte_is "-" b then inl ([], Comment (S dashes), stk)
      else inl ([], Comment 0, stk)
  | CDataOpen n =>
      if match list_byte_of_string "CDATA[" !! n with
         | Some c => Byte.eqb b c
         | None => false
         end then
        if Nat.leb 5 n then inl ([], CData [] false 0, stk)
        else inl ([], CDataOpen (S n), stk)
      else inr (xml_SyntaxError "invalid <![ sequence")
  | CData buf cr br =>
      if byte_is ">" b && Nat.leb 2 br then
        let text := removelast (removelast buf) in
        if utf8_valid text then inl ([CharData text], fresh, stk)
        else inr (xml_SyntaxError "invalid UTF-8 or illegal character")
      else
        let '(buf', cr') := line_end buf cr b in
        inl ([], CData buf' cr' (brackets br b), stk)
  | Directive depth quote => directive depth quote stk b
  | PITarget buf =>
      match buf with
      | [] =>
          if isNameStart b then inl ([], PITarget [b], stk)
          else inr (xml_SyntaxError "expected target name after <?")
      | _ =>
          if isNameByte b then inl ([], PITarget (buf ++ [b]), stk)
          else pi_named (string_of_list_byte buf) stk b
      end
  | PIData qm =>
      if qm && byte_is ">" b then inl ([], fresh, stk)
      else inl ([], PIData (byte_is "?" b), stk)
  | StartName buf =>
      if isNameByte b then inl ([], StartName (buf ++ [b]), stk)
      else in_tag (string_of_list_byte buf) [] false stk b
  | StartAfter name seen => in_tag name seen false stk b
  | StartSpace name seen => in_tag name seen true stk b
  | StartSlash name =>
      if byte_is ">" b then inl ([StartElement name; EndElement name], fresh, stk)
      else inr (xml_SyntaxError "expected /> in element")
  | AttrName name seen buf =>
      if isNameByte b then inl ([], AttrName name seen (buf ++ [b]), stk)
      else attr_named name seen (string_of_list_byte buf) stk b
  | AttrNameSpace name seen =>
      if isSpace b then inl ([], AttrNameSpace name seen, stk)
      else if byte_is "=" b then inl ([], AttrEq name seen, stk)
      else inr (xml_SyntaxError "attribute name without = in element")
  | AttrEq name seen =>
      if isSpace b then inl ([], AttrEq name seen, stk)
      else if byte_is "'" b || byte_is "034" b then inl ([], AttrValue name seen b [], stk)
      else inr (xml_SyntaxError "unquoted or missing attribute value in element")
  | AttrValue name seen q val =>
      if Byte.eqb b q then
        if utf8_valid val then inl ([], StartAfter name seen, stk)
        else inr (xml_SyntaxError "invalid UTF-8 or illegal character")
      else if byte_is "<" b then inr (xml_SyntaxError "unescaped < inside quoted string")
      else if byte_is "&" b then inl ([], AttrRef name seen q val [], stk)
      else inl ([], AttrValue name seen q (val ++ [b]), stk)
  | AttrRef name seen q val ref =>
      if byte_is ";" b then
        match resolve ref with
        | Some x => inl ([], AttrValue name seen q (val ++ x), stk)
        | None => inr (xml_SyntaxError "invalid character entity")
        end
      else if isRefByte b then inl ([], AttrRef name seen q val (ref ++ [b]), stk)
      else inr (xml_SyntaxError "invalid character entity (no semicolon)")
  | EndName buf =>
      let name := string_of_list_byte buf in
      match buf with
      | [] =>
          if isNameStart b then inl ([], EndName [b], stk)
          else inr (xml_SyntaxError "expected element name after </")
      | _ =>
          if isNameByte b then inl ([], EndName (buf ++ [b]), stk)
          else if isSpace b then inl ([], EndSpace name, stk)
          else if byte_is ">" b then close name stk
          else inr (xml_SyntaxError
                      ("invalid characters between </" +:+ name +:+ " and >"))
      end
  | EndSpace name =>
      if isSpace b then inl ([], EndSpace name, stk)
      else if byte_is ">" b then close name stk
      else inr (xml_SyntaxError
                  ("invalid characters between </" +:+ name +:+ " and >"))
  end.

(** Modelled from the spec: the stream ends: with the error [f] of the
    reader when it has one; else with [io.EOF] between elements and outside
    all of them, and with a syntax error anywhere else (unexpected end of
    input). *)
Definition finish (m : mode) (stk : list string) (f : option error)
    : list Token * error :=
  match m with
  | Text buf _ _ =>
      match emit_text buf with
      | inr e => ([], e)
      | inl ts =>
          (ts, match f, stk with
               | Some e, _ => e
               | None, [] => io_EOF
               | None, _ :: _ => xml_SyntaxError "unexpected EOF"
               end)
      end
  | _ => ([], default (xml_SyntaxError "unexpected EOF") f)
  end.

(** Modelled from the spec: the scanner reads the bytes [s]: the tokens that
    are complete, and the mode and open elements after [s] or the error the
    document has in [s]. *)
Fixpoint feed (m : mode) (stk : list string) (s : list byte)
    : list Token * (mode * list string + error) :=
  match s with
  | [] => ([], inl (m, stk))
  | b :: s' =>
      match step m stk b with
      | inr e => ([], inr e)
      | inl (ts, m', stk') =>
          let '(ts', r) := feed m' stk' s' in (ts ++ ts', r)
      end
  end.

(** Modelled from the spec: the streaming parse of a UTF-8 stream: the tokens
    up to the first error, and that error; every stream ends in one, at the
    latest the end of input. *)
Definition scan (m : mode) (stk : list string) (s : list byte) (f : option error)
    : list Token * error :=
  let '(ts, r) := feed m stk s in
  match r with
  | inr e => (ts, e)
  | inl (m', stk') => let '(ts', e) := finish m' stk' f in (ts ++ ts', e)
  end.

(** *** The XML declaration *)

(** Modelled from the spec: [s] without its prefix [p], when it has that
    prefix. *)
Fixpoint strip_prefix (p s : list byte) : option (list byte) :=
  match p, s with
  | [], _ => Some s
  | a :: p', b :: s' => if Byte.eqb a b then strip_prefix p' s' else None
  | _ :: _, [] => None
  end.

(** Modelled from the spec: [s] without the white space it starts with. *)
Fixpoint skip_space (s : list byte) : list byte :=
  match s with
  | b :: s' => if isSpace b then skip_space s' else s
  | [] => []
  end.

(** Modelled from the spec: the content of a processing instruction runs up to
    the first [?>]; [None] when the stream ends before. *)
Fixpoint scan_pi (buf : list byte) (qm : bool) (s : list byte)
    : option (list byte * list byte) :=
  match s with
  | [] => None
  | b :: s' =>
      if qm && byte_is ">" b then Some (removelast buf, s')
      else scan_pi (buf ++ [b]) (byte_is "?" b) s'
  end.

(** Modelled from the spec: the prolog of a document. *)
Inductive Prolog : Type :=
| NoDeclaration
| Unterminated
| Declaration (content : list byte) (rest : list byte).

(** Modelled from the spec: the XML declaration, when the stream starts with
    one: its content and the stream after it. *)
Definition prolog (s : list byte) : Prolog :=
  match strip_prefix (list_byte_of_string "<?xml") s with
  | None => NoDeclaration
  | Some s' =>
      match s' with
      | b :: _ =>
          if isNameByte b then NoDeclaration
          else match scan_pi [] false (skip_space s') with
               | Some (content, rest) => Declaration content rest
               | None => Unterminated
               end
      | [] => Unterminated
      end
  end.

(** Modelled from the spec: what follows the first occurrence of [p] in
    [s]. *)
Fixpoint find_after (p s : list byte) : option (list byte) :=
  match strip_prefix p s with
  | Some s' => Some s'
  | None =>
      match s with
      | [] => None
      | _ :: s' => find_after p s'
      end
  end.

(** Modelled from the spec: [s] up to its first byte [q], when it has one. *)
Fixpoint until (q : byte) (s : list byte) : option (list byte) :=
  match s with
  | [] => None
  | b :: s' => if Byte.eqb b q then Some [] else (b ::.) <$> until q s'
  end.

(** Modelled from the spec: the value a declaration gives to [param]
    ([version], [encoding]): what stands between quotes after [param=], the
    empty string when there is no such thing. *)
Definition procInst (param : string) (content : list byte) : string :=
  match find_after (list_byte_of_string (param +:+ "=")) content with
  | Some (q :: v) =>
      if byte_is "'" q || byte_is "034" q
      then string_of_list_byte (default [] (until q v))
      else ""
  | _ => ""
  end.

(** Modelled from the spec: the default encoding, for which the stream is
    parsed as it is: none declared, or UTF-8. *)
Definition is_default (enc : string) : bool :=
  String.eqb enc "" || String.eqb (to_lower enc) "utf-8".

(** *** The target *)

(** Modelled from the spec: a caller-provided structure: the element name the
    structure is tagged with (empty for none) and its string fields, each
    under the element name of its tag. *)
Record Target : Type := mkTarget { XMLName : string; Fields : gmap string string }.

(** Modelled from the spec: the mapping populates a field with the text of
    its element. *)
Definition set_field (name : string) (text : list byte) (v : Target) : Target :=
  {| XMLName := XMLName v;
     Fields := <[name := string_of_list_byte text]> (Fields v) |}.

(** Modelled from the spec: where the structural mapping stands: before the
    root element, among its children, in a mapped child (collecting its text,
    [depth] elements deep inside it), or in an unmapped one. *)
Inductive place : Type :=
| Outside
| InRoot
| InField (name : string) (text : list byte) (depth : nat)
| Skipping (depth : nat).

(** Modelled from the spec: ordinary structural XML-to-value mapping: before
    the root element there is nothing but white space; the root element has
    to bear the name the target is tagged with; a child whose name is the
    tag of a field gives that field its text; anything unrecognised is
    ignored; the mapping is done when the root element ends, and fails with
    the error of the stream when the stream ends before. *)
Fixpoint unmarshal (p : place) (v : Target) (ts : list Token) (e : error)
    : Target * option error :=
  match ts with
  | [] => (v, Some e)
  | t :: ts' =>
      match p, t with
      | Outside, StartElement n =>
          if String.eqb (XMLName v) "" || String.eqb (XMLName v) n
          then unmarshal InRoot v ts' e
          else (v, Some (xml_UnmarshalError
                           ("expected element type <" +:+ XMLName v +:+
                            "> but have <" +:+ n +:+ ">")))
      | Outside, CharData d =>
          if forallb isSpace d then unmarshal Outside v ts' e
          else (v, Some (xml_SyntaxError "character data outside the root element"))
      | Outside, EndElement _ => unmarshal Outside v ts' e
      | InRoot, StartElement n =>
          match Fields v !! n with
          | Some _ => unmarshal (InField n [] 0) v ts' e
          | None => unmarshal (Skipping 0) v ts' e
          end
      | InRoot, EndElement _ => (v, None)
      | InRoot, CharData _ => unmarshal InRoot v ts' e
      | InField n text depth, CharData d =>
          unmarshal (InField n (match depth with 0 => text ++ d | _ => text end) depth)
            v ts' e
      | InField n text depth, StartElement _ =>
          unmarshal (InField n text (S depth)) v ts' e
      | InField n text depth, EndElement _ =>
          match depth with
          | 0 => unmarshal InRoot (set_field n text v) ts' e
          | S depth' => unmarshal (InField n text depth') v ts' e
          end
      | Skipping depth, StartElement _ => unmarshal (Skipping (S depth)) v ts' e
      | Skipping depth, EndElement _ =>
          match depth with
          | 0 => unmarshal InRoot v ts' e
          | S depth' => unmarshal (Skipping depth') v ts' e
          end
      | Skipping depth, CharData _ => unmarshal (Skipping depth) v ts' e
      end
  end.

(** *** The decoder *)

(** Modelled from the spec: an [xml.Decoder]: the stream it reads and the
    charset layer it has been given, if any. *)
Record Decoder : Type :=
  mkDecoder { r : Reader; CharsetReader : option charset.Layer }.

(** Modelled from the spec: [xml.NewDecoder]: a decoder on [r] with no
    charset layer. *)
Definition NewDecoder (r : Reader) : Decoder :=
  {| r := r; CharsetReader := None |}.

(** Modelled from the spec: the parse of a UTF-8 stream into the target. *)
Definition parse (r : Reader) (v : Target) : Target * option error :=
  let '(ts, e) := scan fresh [] (data r) (fault r) in
  unmarshal Outside v ts e.

(** Modelled from the spec: [Decoder.Decode]: treat the stream as an XML
    document; before parsing any content look at the encoding the prolog
    declares and, if it differs from the default, transcode the rest of the
    stream with the charset layer, keyed by the declared name; parse the
    (possibly transcoded) stream into the target.  It fails when the stream
    is empty or not well formed (a declaration of a version other than 1.0
    counts as such), when the declared charset is not recognised by the
    layer (or there is no layer), or when the mapping fails; the target is
    returned as far as it was filled in. *)
Definition Decode (d : Decoder) (v : Target) : Target * option error :=
  match prolog (data (r d)) with
  | NoDeclaration => parse (r d) v
  | Unterminated => (v, Some (default (xml_SyntaxError "unexpected EOF") (fault (r d))))
  | Declaration content rest =>
      let ver := procInst "version" content in
      let enc := procInst "encoding" content in
      let body := mkReader rest (fault (r d)) in
      if negb (String.eqb ver "" || String.eqb ver "1.0")
      then (v, Some (errors_New ("xml: unsupported version " +:+ ver)))
      else if is_default enc then parse body v
      else
        match CharsetReader d with
        | None =>
            (v, Some (errors_New
                        ("xml: encoding " +:+ enc +:+
                         " declared but Decoder.CharsetReader is nil")))
        | Some layer =>
            match layer enc body with
            | inr err => (v, Some (xml_charset enc err))
            | inl body' => parse body' v
            end
        end
  end.

End xml.


(** ** XML documents

    What the specification means by a well-formed XML document and by the
    text of its elements, modelled from it like the decoder: what the bytes
    of a document are, construct by construct, and what a structure is to
    hold after the document has been mapped into it.  A document is given
    by its concrete syntax, white space and quoting included, so that every
    way of writing it down is covered. *)

Module document.

(** Modelled from the spec: the bytes of a literal. *)
Definition lit (s : string) : list byte := list_byte_of_string s.

(** Modelled from the spec: character data, byte by byte or by reference
    [&name;]. *)
Inductive atom : Type :=
| Raw (b : byte)
| Ref (name : list byte).

(** Modelled from the spec: text: atoms one after the other. *)
Definition text : Type := list atom.

(** Modelled from the spec: an attribute as it is written: white space, the
    name, white space around the equals sign, and the value between two
    quotes [quote]. *)
Record attribute : Type := mkAttribute {
  a_space : list byte;
  a_name : list byte;
  a_pre : list byte;
  a_post : list byte;
  a_quote : byte;
  a_value : text
}.

(** Modelled from the spec: markup, and the content of an element: text,
    then markup and text in turn. *)
Inductive markup : Type :=
| Comment (body : list byte)
| PI (target data : list byte)
| CDATA (body : list byte)
| Empty (name : list byte) (attrs : list attribute) (sp : list byte)
| Elem (name : list byte) (attrs : list attribute) (sp : list byte)
    (body : content) (endsp : list byte)
with content : Type :=
| Last (t : text)
| Cons (t : text) (m : markup) (rest : content).

(** Modelled from the spec: what may stand before the root element, besides
    white space. *)
Inductive misc : Type :=
| MComment (body : list byte)
| MPI (target data : list byte)
| Doctype (body : list byte).

(** Modelled from the spec: a document after its XML declaration: white
    space and comments, processing instructions and a document type
    declaration, then white space and the root element. *)
Record t : Type := mkDocument {
  before : list (list byte * misc);
  lead : list byte;
  root : markup
}.

(** *** The bytes of a document *)

(** Modelled from the spec: the bytes of an atom. *)
Definition render_atom (a : atom) : list byte :=
  match a with
  | Raw b => [b]
  | Ref name => lit "&" ++ name ++ lit ";"
  end.

(** Modelled from the spec: the bytes of text. *)
Definition render_text (t : text) : list byte := flat_map render_atom t.

(** Modelled from the spec: the bytes of an attribute. *)
Definition render_attribute (a : attribute) : list byte :=
  a_space a ++ a_name a ++ a_pre a ++ lit "=" ++ a_post a
    ++ [a_quote a] ++ render_text (a_value a) ++ [a_quote a].

(** Modelled from the spec: the bytes of a start tag between [<] and its
    end: the name, the attributes, white space. *)
Definition render_tag (name : list byte) (attrs : list attribute) (sp : list byte)
    : list byte :=
  name ++ flat_map render_attribute attrs ++ sp.

(** Modelled from the spec: markup after its [<], and content. *)
Fixpoint tail (m : markup) : list byte :=
  match m with
  | Comment body => lit "!--" ++ body ++ lit "-->"
  | PI target data => lit "?" ++ target ++ data ++ lit "?>"
  | CDATA body => lit "![CDATA[" ++ body ++ lit "]]>"
  | Empty name attrs sp => render_tag name attrs sp ++ lit "/>"
  | Elem name attrs sp body endsp =>
      render_tag name attrs sp ++ lit ">" ++ render_content body
        ++ lit "</" ++ name ++ endsp ++ lit ">"
  end
with render_content (c : content) : list byte :=
  match c with
  | Last t => render_text t
  | Cons t m rest => render_text t ++ lit "<" ++ tail m ++ render_content rest
  end.

(** Modelled from the spec: the bytes of markup. *)
Definition render_markup (m : markup) : list byte := lit "<" ++ tail m.

(** Modelled from the spec: what may stand before the root element, after
    its [<]. *)
Definition misc_tail (m : misc) : list byte :=
  match m with
  | MComment body => lit "!--" ++ body ++ lit "-->"
  | MPI target data => lit "?" ++ target ++ data ++ lit "?>"
  | Doctype body => lit "!" ++ body ++ lit ">"
  end.

(** Modelled from the spec: the bytes of what may stand before the root
    element. *)
Definition render_misc (m : misc) : list byte := lit "<" ++ misc_tail m.

(** Modelled from the spec: the bytes of a document. *)
Definition render (d : t) : list byte :=
  flat_map (λ sm, sm.1 ++ render_misc sm.2) (before d) ++ lead d
    ++ render_markup (root d).

(** *** The text of a document *)

(** Modelled from the spec: the text that character data stands for:
    references are replaced by what they refer to and the line ends written
    as they are normalised; [cr] says that a carriage return came last. *)
Fixpoint value (cr : bool) (t : text) : list byte :=
  match t with
  | [] => []
  | Raw b :: t' =>
      if xml.byte_is "013" b then "010"%byte :: value true t'
      else if cr && xml.byte_is "010" b then value false t'
      else b :: value false t'
  | Ref name :: t' => default [] (xml.resolve name) ++ value false t'
  end.

(** Modelled from the spec: the text of a CDATA section or of white space:
    the bytes with their line ends normalised. *)
Definition plain (s : list byte) : list byte := value false (Raw <$> s).

(** Modelled from the spec: the value of an attribute. *)
Definition attr_value (t : text) : list byte :=
  flat_map (λ a, match a with
                 | Raw b => [b]
                 | Ref name => default [] (xml.resolve name)
                 end) t.

(** Modelled from the spec: the text directly inside an element: its
    character data and CDATA sections, not the text of the elements inside
    it. *)
Fixpoint direct_text (c : content) : list byte :=
  match c with
  | Last t => value false t
  | Cons t m rest =>
      value false t
        ++ match m with CDATA body => plain body | _ => [] end
        ++ direct_text rest
  end.

(** Modelled from the spec: a name as a string. *)
Definition name_of (name : list byte) : string := string_of_list_byte name.

(** Modelled from the spec: the target after the children [c] of the root
    element: each child that bears the name of a field gives that field its
    text, a later one replacing an earlier one. *)
Fixpoint fill (v : xml.Target) (c : content) : xml.Target :=
  match c with
  | Last _ => v
  | Cons _ m rest =>
      fill
        match m with
        | Empty name _ _ =>
            match xml.Fields v !! name_of name with
            | Some _ => xml.set_field (name_of name) [] v
            | None => v
            end
        | Elem name _ _ body _ =>
            match xml.Fields v !! name_of name with
            | Some _ => xml.set_field (name_of name) (direct_text body) v
            | None => v
            end
        | _ => v
        end
        rest
  end.

(** Modelled from the spec: the target populated from the document. *)
Definition populate (v : xml.Target) (d : t) : xml.Target :=
  match root d with
  | Elem _ _ _ body _ => fill v body
  | _ => v
  end.

(** Modelled from the spec: the name the root element bears. *)
Definition root_name (d : t) : string :=
  match root d with
  | Empty name _ _ | Elem name _ _ _ _ => name_of name
  | _ => ""
  end.

(** Modelled from the spec: the document is one for the target: the target
    is tagged with the name of the root element, or with none. *)
Definition maps_into (v : xml.Target) (d : t) : Prop :=
  xml.XMLName v = "" ∨ xml.XMLName v = root_name d.

(** *** The tokens of a document *)

(** Modelled from the spec: the token that text gives when it ends. *)
Definition emitted (s : list byte) : list xml.Token :=
  match s with
  | [] => []
  | _ => [xml.CharData s]
  end.

(** Modelled from the spec: the tokens of markup and of content: a start and
    an end for each element, and the text between. *)
Fixpoint tokens (m : markup) : list xml.Token :=
  match m with
  | Comment _ | PI _ _ => []
  | CDATA body => [xml.CharData (plain body)]
  | Empty name _ _ => [xml.StartElement (name_of name); xml.EndElement (name_of name)]
  | Elem name _ _ body _ =>
      xml.StartElement (name_of name) :: content_tokens body
        ++ [xml.EndElement (name_of name)]
  end
with content_tokens (c : content) : list xml.Token :=
  match c with
  | Last t => emitted (value false t)
  | Cons t m rest => emitted (value false t) ++ tokens m ++ content_tokens rest
  end.

(** *** Well-formedness *)

(** Modelled from the spec: white space. *)
Definition spaces (sp : list byte) : bool := forallb xml.isSpace sp.

(** Modelled from the spec: a reference is written with a name that stands
    for something. *)
Definition ref_ok (name : list byte) : bool :=
  forallb xml.isRefByte name
  && match xml.resolve name with Some _ => true | None => false end.

(** Modelled from the spec: character data has no [<] and no [&] of its own
    and not the sequence [brackets br] counts toward; [br] closing brackets
    came last. *)
Fixpoint raw_ok (br : nat) (t : text) : bool :=
  match t with
  | [] => true
  | Raw b :: t' =>
      negb (xml.byte_is "<" b) && negb (xml.byte_is "&" b)
      && negb (xml.byte_is ">" b && Nat.leb 2 br)
      && raw_ok (xml.brackets br b) t'
  | Ref name :: t' => ref_ok name && raw_ok 0 t'
  end.

(** Modelled from the spec: character data is well formed: no markup in it,
    not the sequence that closes a CDATA section, and its text is UTF-8 of
    characters of XML. *)
Definition text_ok (t : text) : bool :=
  raw_ok 0 t && xml.utf8_valid (value false t).

(** Modelled from the spec: the value of an attribute between quotes [q]. *)
Fixpoint quoted_ok (q : byte) (t : text) : bool :=
  match t with
  | [] => true
  | Raw b :: t' =>
      negb (Byte.eqb b q) && negb (xml.byte_is "<" b) && negb (xml.byte_is "&" b)
      && quoted_ok q t'
  | Ref name :: t' => ref_ok name && quoted_ok q t'
  end.

(** Modelled from the spec: an attribute is well formed: white space before
    it, a name, a quoted value that is text. *)
Definition attribute_ok (a : attribute) : bool :=
  spaces (a_space a) && negb (bool_decide (a_space a = []))
  && xml.isName (a_name a) && spaces (a_pre a) && spaces (a_post a)
  && (xml.byte_is "'" (a_quote a) || xml.byte_is "034" (a_quote a))
  && quoted_ok (a_quote a) (a_value a)
  && xml.utf8_valid (attr_value (a_value a)).

(** Modelled from the spec: attributes, none bearing a name in [seen] or the
    name of another. *)
Fixpoint attributes_ok (seen : list string) (attrs : list attribute) : bool :=
  match attrs with
  | [] => true
  | a :: attrs' =>
      attribute_ok a && negb (bool_decide (name_of (a_name a) ∈ seen))
      && attributes_ok (name_of (a_name a) :: seen) attrs'
  end.

(** Modelled from the spec: a comment has no two dashes in a row and does
    not end in one; [dashes] came last. *)
Fixpoint comment_ok (dashes : nat) (body : list byte) : bool :=
  match body with
  | [] => Nat.eqb dashes 0
  | b :: body' =>
      if xml.byte_is "-" b then Nat.eqb dashes 0 && comment_ok 1 body'
      else comment_ok 0 body'
  end.

(** Modelled from the spec: a processing instruction does not hold the
    sequence that ends it. *)
Fixpoint pi_data_ok (qm : bool) (data : list byte) : bool :=
  match data with
  | [] => true
  | b :: data' => negb (qm && xml.byte_is ">" b) && pi_data_ok (xml.byte_is "?" b) data'
  end.

(** Modelled from the spec: a processing instruction is well formed: its
    target is a name other than [xml], and white space parts it from what
    follows. *)
Definition pi_ok (target data : list byte) : bool :=
  xml.isName target
  && negb (String.eqb (xml.to_lower (name_of target)) "xml")
  && match data with
     | [] => true
     | b :: data' => xml.isSpace b && pi_data_ok false data'
     end.

(** Modelled from the spec: a CDATA section does not hold the sequence that
    ends it. *)
Fixpoint cdata_ok (br : nat) (body : list byte) : bool :=
  match body with
  | [] => true
  | b :: body' =>
      negb (xml.byte_is ">" b && Nat.leb 2 br) && cdata_ok (xml.brackets br b) body'
  end.

(** Modelled from the spec: a document type declaration: quotes and brackets
    are balanced in it. *)
Fixpoint doctype_ok (depth : nat) (quote : option byte) (body : list byte) : bool :=
  match body with
  | [] => Nat.eqb depth 0 && match quote with None => true | Some _ => false end
  | b :: body' =>
      match quote with
      | Some q => doctype_ok depth (if Byte.eqb b q then None else Some q) body'
      | None =>
          if xml.byte_is ">" b then
            match depth with
            | 0 => false
            | S depth' => doctype_ok depth' None body'
            end
          else if xml.byte_is "'" b || xml.byte_is "034" b
          then doctype_ok depth (Some b) body'
          else if xml.byte_is "<" b then doctype_ok (S depth) None body'
          else doctype_ok depth None body'
      end
  end.

(** Modelled from the spec: a start tag is well formed. *)
Definition tag_ok (name : list byte) (attrs : list attribute) (sp : list byte) : bool :=
  xml.isName name && attributes_ok [] attrs && spaces sp.

(** Modelled from the spec: markup and content are well formed, construct by
    construct. *)
Fixpoint markup_ok (m : markup) : bool :=
  match m with
  | Comment body => comment_ok 0 body
  | PI target data => pi_ok target data
  | CDATA body => cdata_ok 0 body && xml.utf8_valid (plain body)
  | Empty name attrs sp => tag_ok name attrs sp
  | Elem name attrs sp body endsp =>
      tag_ok name attrs sp && content_ok body && spaces endsp
  end
with content_ok (c : content) : bool :=
  match c with
  | Last t => text_ok t
  | Cons t m rest => text_ok t && markup_ok m && content_ok rest
  end.

(** Modelled from the spec: what stands before the root element is well
    formed; a document type declaration does not begin like a comment or a
    CDATA section. *)
Definition misc_ok (m : misc) : bool :=
  match m with
  | MComment body => comment_ok 0 body
  | MPI target data => pi_ok target data
  | Doctype body =>
      match body with
      | b :: _ => negb (xml.byte_is "-" b) && negb (xml.byte_is "[" b)
      | [] => true
      end
      && doctype_ok 0 None body
  end.

(** Modelled from the spec: markup that is an element. *)
Definition is_element (m : markup) : bool :=
  match m with
  | Empty _ _ _ | Elem _ _ _ _ _ => true
  | _ => false
  end.

(** Modelled from the spec: the document is well formed. *)
Definition well_formed (d : t) : bool :=
  forallb (λ sm, spaces sm.1 && misc_ok sm.2) (before d)
  && spaces (lead d) && is_element (root d) && markup_ok (root d).

(** *** The XML declaration *)

(** Modelled from the spec: an XML declaration as it is written: [<?xml],
    white space, the content, [?>]. *)
Record declaration : Type := mkDeclaration {
  d_space : list byte;
  d_content : list byte
}.

(** Modelled from the spec: the bytes of a declaration. *)
Definition render_declaration (x : declaration) : list byte :=
  lit "<?xml" ++ d_space x ++ d_content x ++ lit "?>".

(** Modelled from the spec: the version a declaration gives. *)
Definition version (x : declaration) : string := xml.procInst "version" (d_content x).

(** Modelled from the spec: the encoding a declaration names. *)
Definition encoding (x : declaration) : string := xml.procInst "encoding" (d_content x).

(** Modelled from the spec: the declaration is well formed: white space
    after [<?xml], a content that does not hold the sequence that ends it,
    and version 1.0 if it gives one. *)
Definition declaration_ok (x : declaration) : bool :=
  spaces (d_space x) && negb (bool_decide (d_space x = []))
  && match d_content x with b :: _ => negb (xml.isSpace b) | [] => true end
  && pi_data_ok false (d_content x)
  && (String.eqb (version x) "" || String.eqb (version x) "1.0").

(** *** The scanner on a document *)

(** The scanner reads [s] without an error: it gives the tokens [ts] and
    goes from [m] with [stk] open to [m'] with [stk'] open. *)
Definition feeds (m : xml.mode) (stk : list string) (s : list byte)
    (ts : list xml.Token) (m' : xml.mode) (stk' : list string) : Prop :=
  xml.feed m stk s = (ts, inl (m', stk')).

(** A mode in a start tag where the name of the element or an attribute
    has just ended. *)
Definition tag_like (m : xml.mode) (name : string) (seen : list string) : Prop :=
  ∀ stk b, xml.isNameByte b = false → xml.step m stk b = xml.in_tag name seen false stk b.

(** The tokens of what stands before the root element: its white space. *)
Definition before_tokens (d : t) : list xml.Token :=
  flat_map (λ sm, emitted (plain sm.1)) (before d) ++ emitted (plain (lead d)).

(** The tokens of a document. *)
Definition document_tokens (d : t) : list xml.Token :=
  before_tokens d ++ tokens (root d).

(** Induction on markup and content together. *)
Scheme markup_content_ind := Induction for markup Sort Prop
with content_markup_ind := Induction for content Sort Prop.

Combined Scheme markup_and_content from markup_content_ind, content_markup_ind.

End document.

(** ** Package bartapi *)

Module bartapi.

Definition PublicAPIKey : string := "MW9S-E7SL-26DU-VV8V".

Definition URL : string := "http://api.bart.gov/api/bsa.aspx".

Record Client : Type := mkClient { key : string; baseURL : string }.

(** A method with receiver [c *Client]: it may read and assign the fields of
    the receiver and make calls. *)
Definition method (A : Type) : Type := Client → Go (A * Client).

#[export] Instance method_ret : MRet method := λ A a c, Ret (a, c).
#[export] Instance method_bind : MBind method :=
  λ A B f m c, Go_bind (λ ac, f ac.1 ac.2) (m c).

Definition this : method Client := λ c, Ret (c, c).
Definition assign (f : Client → Client) : method () := λ c, Ret ((), f c).
Definition extern {X : Type} (e : call X) : method X :=
  λ c, Call e (λ x, Ret (x, c)).

Definition New (key : string) : Client := {| key := key; baseURL := URL |}.

Definition SetBaseURL (u : string) : method () :=
  assign (λ c, {| key := key c; baseURL := u |}).

Definition BaseURL : method string := c ← this; mret (baseURL c).

Definition Key : method string := c ← this; mret (key c).

Definition Pull (cmd : string) (query : gmap string string)
    : method (option (list byte) * option error) :=
  c ← this;
  let params := bytes.zero in
  let params :=
    bytes.WriteString params
      (fmt.Sprintf "%v?cmd=%v&key=%v" [baseURL c; cmd; key c]) in
  kvs ← extern (MapRange query);
  let params :=
    foldl (λ params '(k, v),
             bytes.WriteString params (fmt.Sprintf "&%v=%v" [k; v]))
          params kvs in
  r ← extern (http_Get (bytes.String params));
  match r with
  | inr err => mret (None, Some err)
  | inl resp =>
      (* [defer resp.Body.Close()] runs once the results are fixed, on both
         ways out below; what it returns is dropped *)
      let deferred := extern (Body_Close (Body resp)) in
      match ioutil_ReadAll (Body resp) with
      | (_, Some err) => _ ← deferred; mret (None, Some err)
      | (body, None) => _ ← deferred; mret (Some body, None)
      end
  end.

Section Decode.
(** [charset.NewReader], the charset layer of [go-charset]. *)
Context (charset_NewReader : charset.Layer).

Definition Decode (r : Reader) (v : xml.Target) : xml.Target * option error :=
  let d := xml.NewDecoder r in
  let d := {| xml.r := xml.r d; xml.CharsetReader := Some charset_NewReader |} in
  xml.Decode d v.
End Decode.

End bartapi.

Import bartapi.

(** ** Definitions the statements use *)

(** The query parameters as the specification words them: for each entry, in
    the order given, the literal [&], the key, the literal [=], the value. *)
Fixpoint spec_params (kvs : list (string * string)) : string :=
  match kvs with
  | [] => ""
  | (k, v) :: kvs' => "&" +:+ k +:+ "=" +:+ v +:+ spec_params kvs'
  end.

(** The target as the specification words it. *)
Definition spec_target (b cmd k : string) (kvs : list (string * string)) : string :=
  b +:+ "?cmd=" +:+ cmd +:+ "&key=" +:+ k +:+ spec_params kvs.

(** The target [Pull] hands to [http.Get], when the runtime yields [kvs]. *)
Definition Pull_url (c : Client) (cmd : string) (kvs : list (string * string)) : string :=
  bytes.String
    (foldl (λ params '(k, v),
              bytes.WriteString params (fmt.Sprintf "&%v=%v" [k; v]))
       (bytes.WriteString bytes.zero
          (fmt.Sprintf "%v?cmd=%v&key=%v" [baseURL c; cmd; key c]))
       kvs).

(** What [Pull] returns once the GET has been answered. *)
Definition Pull_returns (r : Response + error)
    : option (list byte) * option error :=
  match r with
  | inr err => (None, Some err)
  | inl resp =>
      match fault (Body resp) with
      | Some err => (None, Some err)
      | None => (Some (data (Body resp)), None)
      end
  end.

(** The operations of the public interface on a [*Client]. *)
Inductive op : Type :=
| op_SetBaseURL (u : string)
| op_BaseURL
| op_Key
| op_Pull (cmd : string) (query : gmap string string).

(** The method an operation invokes, its results dropped. *)
Definition invoke (o : op) : method () :=
  match o with
  | op_SetBaseURL u => SetBaseURL u
  | op_BaseURL => _ ← BaseURL; mret ()
  | op_Key => _ ← Key; mret ()
  | op_Pull cmd query => _ ← Pull cmd query; mret ()
  end.

(** One operation on the client [s.1] in the world [s.2]. *)
Definition perform {W : Type} (h : handler W) (s : Client * W) (o : op) : Client * W :=
  let r := run h (invoke o s.1) s.2 in ((result r).2, world r).

(** A client and a world after a sequence of operations. *)
Definition after {W : Type} (h : handler W) (s : Client * W) (ops : list op) : Client * W :=
  foldl (perform h) s ops.

(** ** Test doubles *)

(** An environment in the manner of the test server of [api_test.go]: every
    GET is answered with [r], a map is ranged over in the order of
    [map_to_list], closing a body succeeds. *)
Definition double (r : Response + error) : handler () :=
  λ X e w,
    match e in call X return X * () with
    | MapRange m => (map_to_list m, w)
    | http_Get _ => (r, w)
    | Body_Close _ => (None, w)
    end.

Definition testclient : Client := {| key := "testkey"; baseURL := "http://localhost/" |}.

Definition params : gmap string string := {[ "bacon" := "good"; "salad" := "bad" ]}.

Definition not_found : Response :=
  {| StatusCode := 404;
     Body := bytes_NewReader (list_byte_of_string "404 page not found") |}.

Definition cut_off : Response :=
  {| StatusCode := 200;
     Body := mkReader (list_byte_of_string "{") (Some (net_Error "connection reset by peer")) |}.

Definition refused : error :=
  url_Error "Get" "http://localhost/?cmd=test&key=testkey" "connection refused".

(** The target structure and the document of [TestDecode]. *)
Definition xmlType : xml.Target := xml.mkTarget "root" {[ "somekey" := "" ]}.

Definition exampleXml : string := "
<root>
	<somekey>hello!</somekey>
</root>
".

(** Modelled from the spec: ISO-8859-1 to UTF-8, byte by byte: the code
    point of a byte is its value. *)

(** Modelled from the spec: ISO-8859-1 to UTF-8, byte by byte: the code
    point of a byte is its value. *)
Definition latin1_utf8 (b : byte) : list byte :=
  let c := Byte.to_N b in
  if (c <? 0x80)%N then [b]
  else [default x00 (Byte.of_N (0xC0 + c / 64)); default x00 (Byte.of_N (0x80 + c mod 64))].

(** Modelled from the spec: a charset layer that recognises ISO-8859-1 under
    two of its names and nothing else. *)
Definition latin1 : charset.Layer :=
  λ name r,
    if String.eqb (xml.to_lower name) "iso-8859-1" || String.eqb (xml.to_lower name) "latin1"
    then inl (mkReader (flat_map latin1_utf8 (data r)) (fault r))
    else inr (errors_New ("charset: no such charset: " +:+ name)).

(** A document in ISO-8859-1, after its declaration: the bytes E9 and E0
    are letters of ISO-8859-1 and no UTF-8. *)
Definition latin1_body : list byte :=
  list_byte_of_string "
<!-- d" ++ ["233"%byte] ++ list_byte_of_string "j" ++ ["224"%byte]
    ++ list_byte_of_string " vu -->
<!DOCTYPE root [ <!ELEMENT root ANY> ]>
<root lang='fr' id = 'a&lt;b'>
  <somekey>caf" ++ ["233"%byte] ++ list_byte_of_string " &amp; th" ++ ["233"%byte]
    ++ list_byte_of_string "&#233;<b>s</b><![CDATA[ <" ++ ["224"%byte]
    ++ list_byte_of_string " la carte>]]></somekey>
  <other note='" ++ ["233"%byte] ++ list_byte_of_string "'/>
</root>
".

Definition latin1_declaration : document.declaration :=
  {| document.d_space := document.lit " ";
     document.d_content := document.lit "version='1.0' encoding='ISO-8859-1'" |}.

Definition latin1_doc : list byte :=
  list_byte_of_string "<?xml version='1.0' encoding='ISO-8859-1'?>" ++ latin1_body.

(** The same document as Unicode text, construct by construct. *)
Definition latin1_document : document.t :=
  let raw s := document.Raw <$> document.lit s in
  let attr sp n pre post v :=
    document.mkAttribute (document.lit sp) (document.lit n) (document.lit pre)
      (document.lit post) "'"%byte v in
  {| document.before :=
       [(document.lit "
", document.MComment (document.lit " déjà vu "));
        (document.lit "
", document.Doctype (document.lit "DOCTYPE root [ <!ELEMENT root ANY> ]"))];
     document.lead := document.lit "
";
     document.root :=
       document.Elem (document.lit "root")
         [attr " " "lang" "" "" (raw "fr");
          attr " " "id" " " " " (raw "a" ++ [document.Ref (document.lit "lt")] ++ raw "b")]
         []
         (document.Cons (raw "
  ")
            (document.Elem (document.lit "somekey") [] []
               (document.Cons
                  (raw "café " ++ [document.Ref (document.lit "amp")] ++ raw " thé"
                     ++ [document.Ref (document.lit "#233")])
                  (document.Elem (document.lit "b") [] []
                     (document.Last (raw "s")) [])
                  (document.Cons [] (document.CDATA (document.lit " <à la carte>"))
                     (document.Last [])))
               [])
            (document.Cons (raw "
  ")
               (document.Empty (document.lit "other") [attr " " "note" "" "" (raw "é")] [])
               (document.Last (raw "
"))))
         [] |}.

(** A stream that ends after the declaration. *)
Definition latin1_truncated : list byte :=
  list_byte_of_string "<?xml version='1.0' encoding='ISO-8859-1'?>".

(** A document in ISO-8859-1 that does not declare it. *)
Definition undeclared_doc : list byte :=
  list_byte_of_string "<root><somekey>caf"
    ++ ["233"%byte] ++ list_byte_of_string "</somekey></root>".

(** ** Package bartapi with endpoints

    [api_test.go] carries, after the tests, the package in the form in which
    a client is made for one endpoint and keeps it: there is no base URL to
    set. *)

Module bartapi2.

(** [type Endpoint string] *)
Definition Endpoint : Type := string.

Definition PublicAPIKey : string := "MW9S-E7SL-26DU-VV8V".

Definition AdvisoryEndpoint : Endpoint := "http://api.bart.gov/api/bsa.aspx".
Definition EstimatesEndpoint : Endpoint := "http://api.bart.gov/api/etd.aspx".
Definition RouteEndpoint : Endpoint := "http://api.bart.gov/api/route.aspx".
Definition ScheduleEndpoint : Endpoint := "http://api.bart.gov/api/sched.aspx".
Definition StationEndpoint : Endpoint := "http://api.bart.gov/api/stn.aspx".

Record Client : Type := mkClient { key : string; url : Endpoint }.

(** A method with receiver [c *Client]. *)
Definition method (A : Type) : Type := Client → Go (A * Client).

#[export] Instance method_ret : MRet method := λ A a c, Ret (a, c).
#[export] Instance method_bind : MBind method :=
  λ A B f m c, Go_bind (λ ac, f ac.1 ac.2) (m c).

Definition this : method Client := λ c, Ret (c, c).
Definition extern {X : Type} (e : call X) : method X :=
  λ c, Call e (λ x, Ret (x, c)).

(** A method called for its effect, what it returns dropped. *)
Definition discard {A : Type} (m : method A) : method () := _ ← m; mret ().

Definition New (key : string) (url : Endpoint) : Client :=
  {| key := key; url := url |}.

Definition URL : method Endpoint := c ← this; mret (url c).

Definition Key : method string := c ← this; mret (key c).

Definition Pull (cmd : string) (query : gmap string string)
    : method (option (list byte) * option error) :=
  c ← this;
  let params := bytes.zero in
  let params :=
    bytes.WriteString params
      (fmt.Sprintf "%v?cmd=%v&key=%v" [(url c : string); cmd; key c]) in
  kvs ← extern (MapRange query);
  let params :=
    foldl (λ params '(k, v),
             bytes.WriteString params (fmt.Sprintf "&%v=%v" [k; v]))
          params kvs in
  r ← extern (http_Get (bytes.String params));
  match r with
  | inr err => mret (None, Some err)
  | inl resp =>
      (* [defer resp.Body.Close()], as in the package with a base URL *)
      let deferred := extern (Body_Close (Body resp)) in
      match ioutil_ReadAll (Body resp) with
      | (_, Some err) => _ ← deferred; mret (None, Some err)
      | (body, None) => _ ← deferred; mret (Some body, None)
      end
  end.

End bartapi2.

(** The client with a base URL that stands for the client [c] with an
    endpoint: same key, the endpoint as base URL. *)
Definition with_baseURL (c : bartapi2.Client) : Client :=
  {| key := bartapi2.key c; baseURL := bartapi2.url c |}.

(** The operations of the public interface on a client with an endpoint. *)
Inductive op2 : Type :=
| op2_URL
| op2_Key
| op2_Pull (cmd : string) (query : gmap string string).

Definition invoke2 (o : op2) : bartapi2.method () :=
  match o with
  | op2_URL => bartapi2.discard bartapi2.URL
  | op2_Key => bartapi2.discard bartapi2.Key
  | op2_Pull cmd query => bartapi2.discard (bartapi2.Pull cmd query)
  end.

Definition perform2 {W : Type} (h : handler W) (s : bartapi2.Client * W) (o : op2)
    : bartapi2.Client * W :=
  let r := run h (invoke2 o s.1) s.2 in ((result r).2, world r).

Definition after2 {W : Type} (h : handler W) (s : bartapi2.Client * W)
    (ops : list op2) : bartapi2.Client * W :=
  foldl (perform2 h) s ops.

(** ** The test server of api_test.go *)

Module testserver.

(** What the handler reads of an [*http.Request]: the error of
    [req.ParseForm()] and the form it leaves in [req.Form]. *)
Record Request : Type :=
  mkRequest { ParseForm : option error; Form : gmap string (list string) }.

(** The loop [for k, v := range req.Form { params[k] = v[0] }] over the
    entries in the order [kvs] in which the runtime yields them; [None] is
    the run-time panic of [v[0]] on an empty slice. *)
Fixpoint echo (params : gmap string string) (kvs : list (string * list string))
    : option (gmap string string) :=
  match kvs with
  | [] => Some params
  | (k, v) :: kvs' =>
      match v with
      | [] => None
      | x :: _ => echo (<[k := x]> params) kvs'
      end
  end.

Section Handler.
(** [json.Marshal] on a [map[string]string], the order in which the runtime
    ranges over a form, and what [fmt.Fprintf] writes for a format and no
    operands. *)
Context (json_Marshal : gmap string string → string + error).
Context (range : gmap string (list string) → list (string * list string)).
Context (fmt_Fprintf : string → string).

(** [handler.ServeHTTP]: what it writes to the response, [None] when it
    panics.  The JSON text is handed to [fmt.Fprintf] as the format, with no
    operands. *)
Definition ServeHTTP (req : Request) : option string :=
  match ParseForm req with
  | Some err => None
  | None =>
      let params := ∅ in
      match echo params (range (Form req)) with
      | None => None
      | Some params =>
          match json_Marshal params with
          | inr err => None
          | inl resp => Some (fmt_Fprintf resp)
          end
      end
  end.
End Handler.

End testserver.

(** ** Definitions for the further properties *)

(** The base URL a client has after [ops], having started with [b]: the
    argument of the last [SetBaseURL] among them. *)
Definition last_set (ops : list op) (b : string) : string :=
  foldl (λ b o, match o with op_SetBaseURL u => u | _ => b end) b ops.

Definition is_Pull (o : op) : bool :=
  match o with op_Pull _ _ => true | _ => false end.

(** The operations [ops] one after the other on one client. *)
Fixpoint session (ops : list op) : method () :=
  match ops with
  | [] => mret ()
  | o :: ops' => _ ← invoke o; session ops'
  end.

(** The bytes a query entry adds to the target. *)
Definition param_size (kv : string * string) : nat :=
  String.length kv.1 + String.length kv.2 + 2.

(** A text has a percent sign. *)
Fixpoint has_percent (f : string) : bool :=
  match f with
  | "" => false
  | String a f' => Ascii.eqb a "%" || has_percent f'
  end.

(** What [fmt] does with a format and no operands, as far as the test
    server needs it: a format without a percent sign is written as it is,
    and at the first verb [%v] the text [%!v(MISSING)] is written in its
    place. *)
Definition Fprintf_plain (F : string → string) : Prop :=
  ∀ f, has_percent f = false → F f = f.

Definition Fprintf_missing (F : string → string) : Prop :=
  ∀ a b, has_percent a = false →
    ∃ rest, F (a +:+ "%v" +:+ b) = a +:+ "%!v(MISSING)" +:+ rest.

(** A stand-in for [fmt.Fprintf] without operands in examples, for formats
    in which every percent sign begins the verb [%v]. *)
Definition Fprintf_v (f : string) : string := fmt.format_ f [].

(** [double], with the answer [x] to closing a body. *)
Definition double_close (r : Response + error) (x : option error) : handler () :=
  λ X e w,
    match e in call X return X * () with
    | MapRange m => (map_to_list m, w)
    | http_Get _ => (r, w)
    | Body_Close _ => (x, w)
    end.

(** A stand-in for [json.Marshal] in examples: the entries in the order of
    [map_to_list], without the quoting of JSON. *)
Definition toy_json (m : gmap string string) : string + error :=
  inl ("{" +:+ foldr (λ '(k, v) acc, k +:+ ":" +:+ v +:+ ";" +:+ acc) "}" (map_to_list m)).

(** The form of the first request of [TestPull], and one with a verb in a
    value. *)
Definition test_request : testserver.Request :=
  {| testserver.ParseForm := None;
     testserver.Form := {[ "cmd" := ["test"]; "key" := ["testkey"] ]} |}.

Definition verb_request : testserver.Request :=
  {| testserver.ParseForm := None;
     testserver.Form := {[ "cmd" := ["%v"] ]} |}.

(** * Theorems *)

(** ** Strings *)

Lemma append_cons (a : ascii) (s t : string) :
  String a s +:+ t = String a (s +:+ t).
Proof. reflexivity. Qed.

Lemma append_nil_l (s : string) : "" +:+ s = s.
Proof. reflexivity. Qed.

Lemma append_nil_r (s : string) : s +:+ "" = s.
Proof. induction s as [|a s IH]; [done|]. by rewrite append_cons, IH. Qed.

Lemma append_assoc (s t u : string) : (s +:+ t) +:+ u = s +:+ t +:+ u.
Proof. induction s as [|a s IH]; [done|]. by rewrite !append_cons, IH. Qed.

(** ** The request target *)

Lemma Sprintf_head (b cmd k : string) :
  fmt.Sprintf "%v?cmd=%v&key=%v" [b; cmd; k] = b +:+ "?cmd=" +:+ cmd +:+ "&key=" +:+ k.
Proof.
  unfold fmt.Sprintf; cbn [fmt.format_].
  by rewrite append_nil_r.
Qed.

Lemma Sprintf_param (k v : string) :
  fmt.Sprintf "&%v=%v" [k; v] = "&" +:+ k +:+ "=" +:+ v.
Proof.
  unfold fmt.Sprintf; cbn [fmt.format_].
  by rewrite append_nil_r.
Qed.

Lemma range_loop (kvs : list (string * string)) (params : bytes.Buffer) :
  foldl (λ params '(k, v),
           bytes.WriteString params (fmt.Sprintf "&%v=%v" [k; v]))
        params kvs
  = params +:+ spec_params kvs.
Proof.
  revert params; induction kvs as [|[k v] kvs IH]; intros params; cbn [foldl spec_params].
  - by rewrite append_nil_r.
  - rewrite IH, Sprintf_param. unfold bytes.WriteString.
    by rewrite !append_assoc.
Qed.

Section Run.
Context {W : Type} (h : handler W).

(** One run of [Pull], call by call. *)
Lemma Pull_run (c : Client) (cmd : string) (q : gmap string string) (w : W) :
  let ans1 := h _ (MapRange q) w in
  let url := Pull_url c cmd ans1.1 in
  let ans2 := h _ (http_Get url) ans1.2 in
  run h (Pull cmd q c) w =
    match ans2.1 with
    | inr err =>
        mkOutcome (Pull_returns ans2.1, c) ans2.2
          [ev_range q ans1.1; ev_Get url ans2.1]
    | inl resp =>
        let ans3 := h _ (Body_Close (Body resp)) ans2.2 in
        mkOutcome (Pull_returns ans2.1, c) ans3.2
          [ev_range q ans1.1; ev_Get url ans2.1; ev_Close (Body resp) ans3.1]
    end.
Proof.
  intros ans1 url ans2. subst ans2 url ans1.
  unfold Pull_url, run, Pull, mbind, method_bind, mret, method_ret, this, extern.
  cbn [Go_bind run_from fst snd answered app].
  destruct (h _ (MapRange q) w) as [kvs w1]; cbn [Go_bind run_from fst snd answered app].
  destruct (h _ (http_Get _) w1) as [[resp|err] w2];
    cbn [Go_bind run_from fst snd answered app]; [|done].
  unfold Pull_returns, ioutil_ReadAll.
  destruct (fault (Body resp)) as [err|];
    cbn [Go_bind run_from fst snd answered app];
    by destruct (h _ (Body_Close _) w2) as [x w3].
Qed.
End Run.

Section Requests.
Context {W : Type} (h : handler W).

Lemma Pull_trace_Get (c : Client) (cmd : string) (q : gmap string string)
    (w : W) (url : string) (r : Response + error) :
  ev_Get url r ∈ trace (run h (Pull cmd q c) w) →
  url = Pull_url c cmd (h _ (MapRange q) w).1 ∧
  (result (run h (Pull cmd q c) w)).1 = Pull_returns r ∧
  requests (trace (run h (Pull cmd q c) w)) = [url].
Proof.
  rewrite Pull_run; cbv zeta.
  destruct (h _ (http_Get _) _).1 as [resp|err] eqn:E; cbn [trace result fst];
    rewrite !elem_of_cons, elem_of_nil;
    intros [?|[[= -> ->]|H]]; try done.
  by destruct H.
Qed.

Lemma Pull_url_spec (c : Client) (cmd : string) (kvs : list (string * string)) :
  Pull_url c cmd kvs = spec_target (baseURL c) cmd (key c) kvs.
Proof.
  unfold Pull_url, spec_target, bytes.String.
  rewrite range_loop, Sprintf_head. unfold bytes.WriteString, bytes.zero.
  by rewrite append_nil_l, !append_assoc.
Qed.

Lemma Pull_receiver (c : Client) (cmd : string) (q : gmap string string) (w : W) :
  (result (run h (Pull cmd q c) w)).2 = c.
Proof.
  rewrite Pull_run; cbv zeta. by destruct (h _ (http_Get _) _).1.
Qed.

(** C1: [Pull] issues exactly one GET, and its target is the base URL, then
    [?cmd=], the command, [&key=], the key, then [&k=v] for each entry of
    the query map in the order the runtime iterated it; every piece is
    copied as it is, nothing is percent-encoded. *)
Theorem Pull_target (c : Client) (cmd : string) (q : gmap string string) (w : W) :
  range_law h →
  ∃ kvs : list (string * string),
    kvs ≡ₚ map_to_list q ∧
    ev_range q kvs ∈ trace (run h (Pull cmd q c) w) ∧
    requests (trace (run h (Pull cmd q c) w))
      = [baseURL c +:+ "?cmd=" +:+ cmd +:+ "&key=" +:+ key c +:+ spec_params kvs].
Proof.
  intros Hrange. exists (h _ (MapRange q) w).1. split; [apply Hrange|].
  rewrite Pull_run; cbv zeta. rewrite Pull_url_spec.
  destruct (h _ (http_Get _) _).1; cbn [trace]; split; try done;
    apply list_elem_of_here.
Qed.

(** C2: whatever the status code of the response, when its body can be read
    to the end [Pull] returns the whole body and a nil error. *)
Theorem Pull_any_status (c : Client) (cmd : string) (q : gmap string string)
    (w : W) (url : string) (resp : Response) :
  ev_Get url (inl resp) ∈ trace (run h (Pull cmd q c) w) →
  fault (Body resp) = None →
  (result (run h (Pull cmd q c) w)).1 = (Some (data (Body resp)), None).
Proof.
  intros (_ & -> & _)%Pull_trace_Get Hbody.
  unfold Pull_returns. by rewrite Hbody.
Qed.

(** C3: when the GET fails [Pull] returns that very error and nil bytes,
    having made that one request only; when reading the body fails it
    returns the read error and nil bytes. *)
Theorem Pull_errors (c : Client) (cmd : string) (q : gmap string string)
    (w : W) (url : string) (r : Response + error) (err : error) :
  ev_Get url r ∈ trace (run h (Pull cmd q c) w) →
  r = inr err ∨ (∃ resp, r = inl resp ∧ fault (Body resp) = Some err) →
  (result (run h (Pull cmd q c) w)).1 = (None, Some err) ∧
  requests (trace (run h (Pull cmd q c) w)) = [url].
Proof.
  intros (_ & -> & ->)%Pull_trace_Get Hr. split; [|done].
  destruct Hr as [->|(resp & -> & Hbody)]; [done|].
  unfold Pull_returns. by rewrite Hbody.
Qed.
End Requests.

(** ** The client as its callers see it *)

Section Interface.
Context {W : Type} (h : handler W).

Lemma run_bind_ret {A : Type} (m : method A) (c : Client) (w : W) :
  (result (run h ((_ ← m; mret ()) c) w)).2 = (result (run h (m c) w)).2.
Proof.
  unfold run, mbind, method_bind, mret, method_ret.
  generalize (@nil event). revert w.
  induction (m c) as [[a c']|X e k IH]; intros w tr; cbn; [done|].
  destruct (h X e w) as [x w']. apply IH.
Qed.

Lemma perform_key (s : Client * W) (o : op) : key (perform h s o).1 = key s.1.
Proof.
  destruct s as [c w], o as [u| | |cmd query]; unfold perform, invoke;
    cbn [fst snd]; rewrite ?run_bind_ret; try done.
  by rewrite Pull_receiver.
Qed.

Lemma after_key (s : Client * W) (ops : list op) : key (after h s ops).1 = key s.1.
Proof.
  revert s; induction ops as [|o ops IH]; intros s; [done|].
  unfold after in *; cbn [foldl]. by rewrite IH, perform_key.
Qed.

(** C6: a client made by [New(k)] answers [Key()] with [k], for every
    string [k], also after any sequence of [SetBaseURL], [BaseURL], [Key]
    and [Pull] calls. *)
Theorem New_Key (k : string) (ops : list op) (w : W) :
  let s := after h (New k, w) ops in
  (result (run h (Key s.1) s.2)).1 = k.
Proof.
  intros s. change (key s.1 = k). subst s. by rewrite after_key.
Qed.

(** C7: [SetBaseURL(u)] followed at once by [BaseURL()] yields [u], for
    every string [u]; [SetBaseURL] checks nothing, calls nothing and has no
    error to return. *)
Theorem SetBaseURL_BaseURL (u : string) (c : Client) (w : W) :
  run h ((_ ← SetBaseURL u; BaseURL) c) w
    = mkOutcome (u, {| key := key c; baseURL := u |}) w [].
Proof. reflexivity. Qed.

(** C8: a client made by [New(k)] has the default endpoint as its base
    URL. *)
Theorem New_BaseURL (k : string) (w : W) :
  (result (run h (BaseURL (New k)) w)).1 = "http://api.bart.gov/api/bsa.aspx" ∧
  baseURL (New k) = URL.
Proof. split; reflexivity. Qed.

(** C9: no operation of the public interface changes the key: each of
    [SetBaseURL], [BaseURL], [Key] and [Pull] leaves it as it was, so a
    client made by [New(k)] keeps the key [k] for good. *)
Theorem key_immutable (k : string) (ops : list op) (o : op) (w : W) :
  let s := after h (New k, w) ops in
  key s.1 = k ∧ key (perform h s o).1 = key s.1.
Proof.
  intros s; subst s. split; [by rewrite after_key|apply perform_key].
Qed.

(** C10: [Pull] leaves both fields of the client as they were, whatever
    the command, the query map and the answers of the network; [Key()] and
    [BaseURL()] change nothing either, and make no call. *)
Theorem Pull_frame (c : Client) (cmd : string) (q : gmap string string) (w : W) :
  let c' := (result (run h (Pull cmd q c) w)).2 in
  (key c' = key c ∧ baseURL c' = baseURL c) ∧
  run h (Key c) w = mkOutcome (key c, c) w [] ∧
  run h (BaseURL c) w = mkOutcome (baseURL c, c) w [].
Proof.
  intros c'; subst c'. by rewrite Pull_receiver.
Qed.
End Interface.

Lemma Pull_target_witness :
  ∃ kvs : list (string * string),
    kvs ≡ₚ map_to_list params ∧
    ev_range params kvs
      ∈ trace (run (double (inl not_found)) (Pull "test2" params testclient) ()) ∧
    requests (trace (run (double (inl not_found)) (Pull "test2" params testclient) ()))
      = ["http://localhost/" +:+ "?cmd=" +:+ "test2" +:+ "&key=" +:+ "testkey"
           +:+ spec_params kvs].
Proof.
  apply (Pull_target (double (inl not_found)) testclient "test2" params ()).
  intros m w. reflexivity.
Defined.

Lemma Pull_any_status_witness :
  (result (run (double (inl not_found)) (Pull "test" ∅ testclient) ())).1
    = (Some (list_byte_of_string "404 page not found"), None).
Proof.
  apply (Pull_any_status (double (inl not_found)) testclient "test" ∅ ()
           "http://localhost/?cmd=test&key=testkey" not_found).
  - vm_compute. apply list_elem_of_further, list_elem_of_here.
  - reflexivity.
Defined.

Lemma Pull_errors_witness :
  ((result (run (double (inr refused)) (Pull "test" ∅ testclient) ())).1
     = (None, Some refused) ∧
   requests (trace (run (double (inr refused)) (Pull "test" ∅ testclient) ()))
     = ["http://localhost/?cmd=test&key=testkey"]) ∧
  ((result (run (double (inl cut_off)) (Pull "test" ∅ testclient) ())).1
     = (None, Some (net_Error "connection reset by peer")) ∧
   requests (trace (run (double (inl cut_off)) (Pull "test" ∅ testclient) ()))
     = ["http://localhost/?cmd=test&key=testkey"]).
Proof.
  split.
  - apply (Pull_errors (double (inr refused)) testclient "test" ∅ ()
             "http://localhost/?cmd=test&key=testkey" (inr refused) refused).
    + vm_compute. apply list_elem_of_further, list_elem_of_here.
    + left. reflexivity.
  - apply (Pull_errors (double (inl cut_off)) testclient "test" ∅ ()
             "http://localhost/?cmd=test&key=testkey" (inl cut_off)
             (net_Error "connection reset by peer")).
    + vm_compute. apply list_elem_of_further, list_elem_of_here.
    + right. exists cut_off. split; reflexivity.
Defined.

(** The query of [TestPull], as it goes out under [double], whose order of
    iteration puts [salad] first. *)
Example TestPull_request :
  requests (trace (run (double (inl not_found)) (Pull "test2" params testclient) ()))
    = ["http://localhost/?cmd=test2&key=testkey&salad=bad&bacon=good"].
Proof. vm_compute. reflexivity. Qed.

(** Bytes with a meaning in a URL go out as they are. *)
Example Pull_verbatim :
  requests (trace (run (double (inl not_found))
                     (Pull "a b&c" {[ "x y" := "1&2=3?" ]} (New "k/%20")) ()))
    = ["http://api.bart.gov/api/bsa.aspx?cmd=a b&c&key=k/%20&x y=1&2=3?"].
Proof. vm_compute. reflexivity. Qed.

(** ** Decode *)

Section Documents.
Import document.

(** *** Bytes *)

Lemma isSpace_inv (b : byte) :
  xml.isSpace b = true → b = " "%byte ∨ b = "009"%byte ∨ b = "010"%byte ∨ b = "013"%byte.
Proof. destruct b; try discriminate; tauto. Qed.

Lemma isRefByte_not_semicolon (b : byte) :
  xml.isRefByte b = true → xml.byte_is ";" b = false.
Proof. by destruct b. Qed.

Lemma space_not_name (b : byte) : xml.isSpace b = true → xml.isNameByte b = false.
Proof. by intros [->|[->|[->| ->]]]%isSpace_inv. Qed.

(** *** Feeding the scanner *)

Lemma feeds_nil (m : xml.mode) (stk : list string) : feeds m stk [] [] m stk.
Proof. reflexivity. Qed.

Lemma feeds_cons (m : xml.mode) (stk : list string) (b : byte) (s : list byte)
    (ts : list xml.Token) (m1 : xml.mode) (stk1 : list string)
    (ts' : list xml.Token) (m2 : xml.mode) (stk2 : list string) :
  xml.step m stk b = inl (ts, m1, stk1) →
  feeds m1 stk1 s ts' m2 stk2 →
  feeds m stk (b :: s) (ts ++ ts') m2 stk2.
Proof. unfold feeds. intros Hstep Hfeed. cbn [xml.feed]. by rewrite Hstep, Hfeed. Qed.

Lemma feeds_silent (m : xml.mode) (stk : list string) (b : byte) (s : list byte)
    (m1 : xml.mode) (ts' : list xml.Token) (m2 : xml.mode) (stk2 : list string) :
  xml.step m stk b = inl ([], m1, stk) →
  feeds m1 stk s ts' m2 stk2 →
  feeds m stk (b :: s) ts' m2 stk2.
Proof. intros Hstep Hfeed. by apply (feeds_cons _ _ _ _ [] m1 stk). Qed.

Lemma feed_app (m : xml.mode) (stk : list string) (s1 s2 : list byte)
    (ts : list xml.Token) (m' : xml.mode) (stk' : list string) :
  feeds m stk s1 ts m' stk' →
  xml.feed m stk (s1 ++ s2)
    = let '(ts2, r) := xml.feed m' stk' s2 in (ts ++ ts2, r).
Proof.
  unfold feeds. revert m stk ts. induction s1 as [|b s1 IH]; intros m stk ts.
  - intros [= <- <- <-]. cbn. by destruct (xml.feed m stk s2).
  - cbn [xml.feed app]. destruct (xml.step m stk b) as [[[ts1 m1] stk1]|e]; [|done].
    destruct (xml.feed m1 stk1 s1) as [ts1' r1] eqn:E1.
    intros [= <- ->]. rewrite (IH _ _ _ E1).
    destruct (xml.feed m' stk' s2). by rewrite app_assoc.
Qed.

Lemma feeds_app (m : xml.mode) (stk : list string) (s1 s2 : list byte)
    (ts1 ts2 : list xml.Token) (m1 m2 : xml.mode) (stk1 stk2 : list string) :
  feeds m stk s1 ts1 m1 stk1 →
  feeds m1 stk1 s2 ts2 m2 stk2 →
  feeds m stk (s1 ++ s2) (ts1 ++ ts2) m2 stk2.
Proof.
  intros H1 H2. unfold feeds. rewrite (feed_app _ _ _ _ _ _ _ H1). by rewrite H2.
Qed.

Lemma feeds_app_silent (m : xml.mode) (stk : list string) (s1 s2 : list byte)
    (ts2 : list xml.Token) (m1 m2 : xml.mode) (stk2 : list string) :
  feeds m stk s1 [] m1 stk →
  feeds m1 stk s2 ts2 m2 stk2 →
  feeds m stk (s1 ++ s2) ts2 m2 stk2.
Proof. intros H1 H2. by apply (feeds_app _ _ _ _ [] ts2 m1 m2 stk). Qed.

(** *** Character data *)

Lemma feeds_ref_name (buf name s : list byte) (stk : list string) :
  forallb xml.isRefByte s = true →
  feeds (xml.TextRef buf name) stk s [] (xml.TextRef buf (name ++ s)) stk.
Proof.
  revert name. induction s as [|b s IH]; intros name Hs.
  - rewrite app_nil_r. apply feeds_nil.
  - cbn [forallb] in Hs. apply andb_prop in Hs as [Hb Hs].
    eapply feeds_silent.
    + cbn [xml.step]. by rewrite (isRefByte_not_semicolon b Hb), Hb.
    + rewrite (cons_middle b name s), app_assoc. by apply IH.
Qed.

Lemma feeds_text (t : text) (buf : list byte) (cr : bool) (br : nat) (stk : list string) :
  raw_ok br t = true →
  ∃ cr' br',
    feeds (xml.Text buf cr br) stk (render_text t) []
      (xml.Text (buf ++ value cr t) cr' br') stk.
Proof.
  revert buf cr br. induction t as [|[b|name] t IH]; intros buf cr br Hok.
  - exists cr, br. rewrite app_nil_r. apply feeds_nil.
  - cbn [raw_ok] in Hok.
    apply andb_prop in Hok as [[[Hlt Hamp]%andb_prop Hgt]%andb_prop Hok].
    apply negb_true_iff in Hlt, Hamp, Hgt.
    assert (∃ buf' cr', xml.line_end buf cr b = (buf', cr') ∧
              buf' ++ value cr' t = buf ++ value cr (Raw b :: t))
      as (buf' & cr' & Hline & Hval).
    { unfold xml.line_end. cbn [value].
      destruct (xml.byte_is "013" b); [|destruct (cr && xml.byte_is "010" b)];
        eexists _, _; (split; [reflexivity|]); by rewrite <-?app_assoc. }
    destruct (IH buf' cr' (xml.brackets br b) Hok) as (cr'' & br'' & Hfeed).
    exists cr'', br''. rewrite <-Hval.
    change (render_text (Raw b :: t)) with (b :: render_text t).
    eapply feeds_silent; [|exact Hfeed].
    cbn [xml.step]. by rewrite Hlt, Hamp, Hgt, Hline.
  - cbn [raw_ok] in Hok. apply andb_prop in Hok as [[Hname Hres]%andb_prop Hok].
    destruct (xml.resolve name) as [val|] eqn:Hval; [|done].
    destruct (IH (buf ++ val) false 0 Hok) as (cr' & br' & Hfeed).
    exists cr', br'. cbn [value]. rewrite Hval. cbn [default]. rewrite app_assoc.
    change (render_text (Ref name :: t))
      with ("&"%byte :: (name ++ [";"%byte]) ++ render_text t).
    eapply feeds_silent; [reflexivity|].
    eapply feeds_app_silent; [|exact Hfeed].
    eapply feeds_app_silent; [by apply feeds_ref_name|].
    eapply feeds_silent; [|apply feeds_nil].
    cbn. by rewrite Hval.
Qed.

Lemma emit_text_valid (buf : list byte) :
  xml.utf8_valid buf = true → xml.emit_text buf = inl (emitted buf).
Proof. intros H. destruct buf; [done|]. unfold xml.emit_text. by rewrite H. Qed.

(** Character data up to the [<] after it. *)
Lemma feeds_text_lt (t : text) (stk : list string) :
  text_ok t = true →
  feeds xml.fresh stk (render_text t ++ lit "<") (emitted (value false t)) xml.Lt stk.
Proof.
  intros [Hraw Hvalid]%andb_prop.
  destruct (feeds_text t [] false 0 stk Hraw) as (cr' & br' & Hfeed).
  rewrite <-(app_nil_l (emitted _)), <-(app_nil_r (emitted _)).
  eapply feeds_app; [exact Hfeed|].
  eapply feeds_cons; [|apply feeds_nil].
  cbn [xml.step]. change (xml.byte_is "<" "<") with true. cbv iota.
  by rewrite app_nil_l, emit_text_valid.
Qed.

(** *** Names and white space *)

Lemma feeds_StartName (buf s : list byte) (stk : list string) :
  forallb xml.isNameByte s = true →
  feeds (xml.StartName buf) stk s [] (xml.StartName (buf ++ s)) stk.
Proof.
  revert buf. induction s as [|b s IH]; intros buf Hs.
  - rewrite app_nil_r. apply feeds_nil.
  - cbn [forallb] in Hs. apply andb_prop in Hs as [Hb Hs].
    eapply feeds_silent; [cbn [xml.step]; by rewrite Hb|].
    rewrite (cons_middle b buf s), app_assoc. by apply IH.
Qed.

Lemma feeds_AttrName (name : string) (seen : list string) (buf s : list byte)
    (stk : list string) :
  forallb xml.isNameByte s = true →
  feeds (xml.AttrName name seen buf) stk s [] (xml.AttrName name seen (buf ++ s)) stk.
Proof.
  revert buf. induction s as [|b s IH]; intros buf Hs.
  - rewrite app_nil_r. apply feeds_nil.
  - cbn [forallb] in Hs. apply andb_prop in Hs as [Hb Hs].
    eapply feeds_silent; [cbn [xml.step]; by rewrite Hb|].
    rewrite (cons_middle b buf s), app_assoc. by apply IH.
Qed.

Lemma feeds_EndName_more (buf s : list byte) (stk : list string) :
  buf ≠ [] →
  forallb xml.isNameByte s = true →
  feeds (xml.EndName buf) stk s [] (xml.EndName (buf ++ s)) stk.
Proof.
  revert buf. induction s as [|b s IH]; intros buf Hbuf Hs.
  - rewrite app_nil_r. apply feeds_nil.
  - cbn [forallb] in Hs. apply andb_prop in Hs as [Hb Hs].
    eapply feeds_silent; [cbn [xml.step]; destruct buf; [done|by rewrite Hb]|].
    rewrite (cons_middle b buf s), app_assoc. apply IH; [by destruct buf|done].
Qed.

Lemma feeds_EndName (name : list byte) (stk : list string) :
  xml.isName name = true →
  feeds (xml.EndName []) stk name [] (xml.EndName name) stk.
Proof.
  destruct name as [|b name]; [done|]. intros [Hb Hname]%andb_prop.
  eapply feeds_silent; [cbn [xml.step]; by rewrite Hb|].
  by apply (feeds_EndName_more [b]).
Qed.

Lemma feeds_PITarget_more (buf s : list byte) (stk : list string) :
  buf ≠ [] →
  forallb xml.isNameByte s = true →
  feeds (xml.PITarget buf) stk s [] (xml.PITarget (buf ++ s)) stk.
Proof.
  revert buf. induction s as [|b s IH]; intros buf Hbuf Hs.
  - rewrite app_nil_r. apply feeds_nil.
  - cbn [forallb] in Hs. apply andb_prop in Hs as [Hb Hs].
    eapply feeds_silent; [cbn [xml.step]; destruct buf; [done|by rewrite Hb]|].
    rewrite (cons_middle b buf s), app_assoc. apply IH; [by destruct buf|done].
Qed.

Lemma feeds_PITarget (name : list byte) (stk : list string) :
  xml.isName name = true →
  feeds (xml.PITarget []) stk name [] (xml.PITarget name) stk.
Proof.
  destruct name as [|b name]; [done|]. intros [Hb Hname]%andb_prop.
  eapply feeds_silent; [cbn [xml.step]; by rewrite Hb|].
  by apply (feeds_PITarget_more [b]).
Qed.

(** White space is passed over in a mode [m] that stays where it is on
    white space. *)
Lemma feeds_spaces (m : xml.mode) (sp : list byte) (stk : list string) :
  (∀ b, xml.isSpace b = true → xml.step m stk b = inl ([], m, stk)) →
  spaces sp = true →
  feeds m stk sp [] m stk.
Proof.
  intros Hm. induction sp as [|b sp IH]; intros Hsp; [apply feeds_nil|].
  cbn [spaces forallb] in Hsp. apply andb_prop in Hsp as [Hb Hsp].
  eapply feeds_silent; [by apply Hm|by apply IH].
Qed.

Lemma feeds_StartSpace (name : string) (seen : list string) (sp : list byte)
    (stk : list string) :
  spaces sp = true →
  feeds (xml.StartSpace name seen) stk sp [] (xml.StartSpace name seen) stk.
Proof. apply feeds_spaces. intros b Hb. cbn. unfold xml.in_tag. by rewrite Hb. Qed.

Lemma feeds_EndSpace (name : string) (sp : list byte) (stk : list string) :
  spaces sp = true →
  feeds (xml.EndSpace name) stk sp [] (xml.EndSpace name) stk.
Proof. apply feeds_spaces. intros b Hb. cbn. by rewrite Hb. Qed.

Lemma feeds_AttrNameSpace (name : string) (seen : list string) (sp : list byte)
    (stk : list string) :
  spaces sp = true →
  feeds (xml.AttrNameSpace name seen) stk sp [] (xml.AttrNameSpace name seen) stk.
Proof. apply feeds_spaces. intros b Hb. cbn. by rewrite Hb. Qed.

Lemma feeds_AttrEq (name : string) (seen : list string) (sp : list byte)
    (stk : list string) :
  spaces sp = true →
  feeds (xml.AttrEq name seen) stk sp [] (xml.AttrEq name seen) stk.
Proof. apply feeds_spaces. intros b Hb. cbn. by rewrite Hb. Qed.

(** *** Comments, processing instructions, CDATA sections, directives *)

Lemma feeds_comment (body : list byte) (dashes : nat) (stk : list string) :
  dashes < 2 →
  comment_ok dashes body = true →
  feeds (xml.Comment dashes) stk body [] (xml.Comment 0) stk.
Proof.
  revert dashes. induction body as [|b body IH]; intros dashes Hlt Hok.
  - cbn in Hok. apply Nat.eqb_eq in Hok as ->. apply feeds_nil.
  - cbn [comment_ok] in Hok.
    assert (Nat.leb 2 dashes = false) as Hleb by (apply Nat.leb_gt; lia).
    destruct (xml.byte_is "-" b) eqn:Hb.
    + apply andb_prop in Hok as [->%Nat.eqb_eq Hok].
      eapply feeds_silent; [cbn [xml.step]; by rewrite Hb|].
      apply IH; [lia|done].
    + eapply feeds_silent; [cbn [xml.step]; by rewrite Hleb, Hb|].
      apply IH; [lia|done].
Qed.

Lemma feeds_comment_tail (body : list byte) (stk : list string) :
  comment_ok 0 body = true →
  feeds xml.Lt stk (lit "!--" ++ body ++ lit "-->") [] xml.fresh stk.
Proof.
  intros Hok.
  eapply feeds_silent; [reflexivity|].
  eapply feeds_silent; [reflexivity|].
  eapply feeds_silent; [reflexivity|].
  eapply feeds_app_silent; [apply feeds_comment; [lia|done]|].
  eapply feeds_silent; [reflexivity|].
  eapply feeds_silent; [reflexivity|].
  eapply feeds_silent; [reflexivity|apply feeds_nil].
Qed.

Lemma feeds_pi_data (data : list byte) (qm : bool) (stk : list string) :
  pi_data_ok qm data = true →
  ∃ qm', feeds (xml.PIData qm) stk data [] (xml.PIData qm') stk.
Proof.
  revert qm. induction data as [|b data IH]; intros qm Hok.
  - exists qm. apply feeds_nil.
  - cbn [pi_data_ok] in Hok. apply andb_prop in Hok as [Hb%negb_true_iff Hok].
    destruct (IH _ Hok) as [qm' Hfeed]. exists qm'.
    eapply feeds_silent; [cbn [xml.step]; by rewrite Hb|done].
Qed.

Lemma feeds_pi_tail (target data : list byte) (stk : list string) :
  pi_ok target data = true →
  feeds xml.Lt stk (lit "?" ++ target ++ data ++ lit "?>") [] xml.fresh stk.
Proof.
  intros [[Hname Hxml%negb_true_iff]%andb_prop Hdata]%andb_prop.
  eapply feeds_silent; [reflexivity|].
  eapply feeds_app_silent; [by apply feeds_PITarget|].
  assert (target ≠ []) as Hne by (by destruct target).
  assert (∀ b, xml.isNameByte b = false →
            xml.step (xml.PITarget target) stk b
              = xml.pi_named (name_of target) stk b) as Hstep.
  { intros b Hb. cbn [xml.step]. destruct target; [done|]. by rewrite Hb. }
  destruct data as [|b data].
  - eapply feeds_silent.
    { rewrite Hstep by done. unfold xml.pi_named. by rewrite Hxml. }
    eapply feeds_silent; [reflexivity|apply feeds_nil].
  - apply andb_prop in Hdata as [Hb Hdata].
    destruct (feeds_pi_data data false stk Hdata) as [qm' Hfeed].
    eapply feeds_silent.
    { rewrite Hstep by (by apply space_not_name).
      unfold xml.pi_named. by rewrite Hxml, Hb. }
    eapply feeds_app_silent; [exact Hfeed|].
    eapply feeds_silent.
    { cbn [xml.step]. change (xml.byte_is ">" "?") with false.
      by rewrite andb_false_r. }
    eapply feeds_silent; [reflexivity|apply feeds_nil].
Qed.

Lemma feeds_cdata (body buf : list byte) (cr : bool) (br : nat) (stk : list string) :
  cdata_ok br body = true →
  ∃ cr' br',
    feeds (xml.CData buf cr br) stk body []
      (xml.CData (buf ++ value cr (Raw <$> body)) cr' br') stk.
Proof.
  revert buf cr br. induction body as [|b body IH]; intros buf cr br Hok.
  - exists cr, br. rewrite app_nil_r. apply feeds_nil.
  - cbn [cdata_ok] in Hok. apply andb_prop in Hok as [Hgt%negb_true_iff Hok].
    assert (∃ buf' cr', xml.line_end buf cr b = (buf', cr') ∧
              buf' ++ value cr' (Raw <$> body) = buf ++ value cr (Raw <$> b :: body))
      as (buf' & cr' & Hline & Hval).
    { unfold xml.line_end. cbn [value fmap list_fmap].
      destruct (xml.byte_is "013" b); [|destruct (cr && xml.byte_is "010" b)];
        eexists _, _; (split; [reflexivity|]); by rewrite <-?app_assoc. }
    destruct (IH buf' cr' (xml.brackets br b) Hok) as (cr'' & br'' & Hfeed).
    exists cr'', br''. rewrite <-Hval.
    eapply feeds_silent; [|exact Hfeed].
    cbn [xml.step]. by rewrite Hgt, Hline.
Qed.

Lemma step_cdata_bracket (buf : list byte) (cr : bool) (br : nat) (stk : list string) :
  xml.step (xml.CData buf cr br) stk "]" =
  inl ([], xml.CData (buf ++ ["]"%byte]) false (S br), stk).
Proof. by destruct cr. Qed.

Lemma feeds_cdata_tail (body : list byte) (stk : list string) :
  cdata_ok 0 body = true →
  xml.utf8_valid (plain body) = true →
  feeds xml.Lt stk (lit "![CDATA[" ++ body ++ lit "]]>")
    [xml.CharData (plain body)] xml.fresh stk.
Proof.
  intros Hok Hvalid.
  destruct (feeds_cdata body [] false 0 stk Hok) as (cr' & br' & Hfeed).
  do 8 (eapply feeds_silent; [reflexivity|]).
  rewrite <-(app_nil_l [xml.CharData _]).
  eapply feeds_app; [exact Hfeed|].
  eapply feeds_silent; [apply step_cdata_bracket|].
  eapply feeds_silent; [apply step_cdata_bracket|].
  rewrite <-(app_nil_r [xml.CharData _]).
  eapply feeds_cons; [|apply feeds_nil].
  cbn [xml.step].
  change (xml.byte_is ">" ">" && Nat.leb 2 (S (S br'))) with true. cbv iota zeta.
  rewrite !removelast_last, app_nil_l. fold (plain body). by rewrite Hvalid.
Qed.

Lemma feeds_directive (body : list byte) (depth : nat) (quote : option byte)
    (stk : list string) :
  doctype_ok depth quote body = true →
  feeds (xml.Directive depth quote) stk body [] (xml.Directive 0 None) stk.
Proof.
  revert depth quote. induction body as [|b body IH]; intros depth quote Hok.
  - cbn in Hok. apply andb_prop in Hok as [->%Nat.eqb_eq Hq].
    destruct quote; [done|]. apply feeds_nil.
  - cbn [doctype_ok] in Hok. destruct quote as [q|].
    + eapply feeds_silent; [reflexivity|]. by apply IH.
    + destruct (xml.byte_is ">" b) eqn:Hgt.
      { destruct depth as [|depth]; [done|].
        eapply feeds_silent; [cbn; by rewrite Hgt|]. by apply IH. }
      destruct (xml.byte_is "'" b || xml.byte_is "034" b) eqn:Hq.
      { eapply feeds_silent; [cbn; by rewrite Hgt, Hq|]. by apply IH. }
      destruct (xml.byte_is "<" b) eqn:Hlt.
      { eapply feeds_silent; [cbn; by rewrite Hgt, Hq, Hlt|]. by apply IH. }
      eapply feeds_silent; [cbn; by rewrite Hgt, Hq, Hlt|]. by apply IH.
Qed.

Lemma feeds_misc (m : misc) :
  misc_ok m = true →
  feeds xml.Lt [] (misc_tail m) [] xml.fresh [].
Proof.
  destruct m as [body|target data|body]; cbn [misc_ok misc_tail]; intros Hok.
  - by apply feeds_comment_tail.
  - by apply feeds_pi_tail.
  - apply andb_prop in Hok as [Hfirst Hok].
    eapply feeds_silent; [reflexivity|].
    assert (feeds (xml.Directive 0 None) [] (body ++ lit ">") [] xml.fresh []) as Hfeed.
    { eapply feeds_app_silent; [by apply feeds_directive|].
      eapply feeds_silent; [reflexivity|apply feeds_nil]. }
    destruct body as [|b body]; [done|].
    apply andb_prop in Hfirst as [Hdash%negb_true_iff Hbr%negb_true_iff].
    unfold feeds in *. cbn [xml.feed app] in *.
    replace (xml.step xml.Bang [] b) with (xml.step (xml.Directive 0 None) [] b); [done|].
    cbn [xml.step]. by rewrite Hdash, Hbr.
Qed.

(** *** Start and end tags *)

Lemma quote_inv (q : byte) :
  xml.byte_is "'" q || xml.byte_is "034" q = true → q = "'"%byte ∨ q = "034"%byte.
Proof. destruct q; try discriminate; tauto. Qed.

Lemma name_start_plain (b : byte) :
  xml.isNameStart b = true →
  xml.isSpace b = false ∧ xml.byte_is ">" b = false ∧ xml.byte_is "/" b = false
  ∧ xml.byte_is "?" b = false ∧ xml.byte_is "!" b = false ∧ xml.isNameByte b = true.
Proof. by destruct b. Qed.

Lemma feeds_attr_ref (name : string) (seen : list string) (q : byte)
    (val ref s : list byte) (stk : list string) :
  forallb xml.isRefByte s = true →
  feeds (xml.AttrRef name seen q val ref) stk s []
    (xml.AttrRef name seen q val (ref ++ s)) stk.
Proof.
  revert ref. induction s as [|b s IH]; intros ref Hs.
  - rewrite app_nil_r. apply feeds_nil.
  - cbn [forallb] in Hs. apply andb_prop in Hs as [Hb Hs].
    eapply feeds_silent.
    + cbn [xml.step]. by rewrite (isRefByte_not_semicolon b Hb), Hb.
    + rewrite (cons_middle b ref s), app_assoc. by apply IH.
Qed.

Lemma feeds_attr_value (name : string) (seen : list string) (q : byte)
    (t : text) (val : list byte) (stk : list string) :
  xml.byte_is "'" q || xml.byte_is "034" q = true →
  quoted_ok q t = true →
  feeds (xml.AttrValue name seen q val) stk (render_text t) []
    (xml.AttrValue name seen q (val ++ attr_value t)) stk.
Proof.
  intros Hquote. revert val. induction t as [|[b|ref] t IH]; intros val Hok.
  - rewrite app_nil_r. apply feeds_nil.
  - cbn [quoted_ok] in Hok.
    apply andb_prop in Hok as [[[Hq Hlt]%andb_prop Hamp]%andb_prop Hok].
    apply negb_true_iff in Hq, Hlt, Hamp.
    change (render_text (Raw b :: t)) with (b :: render_text t).
    eapply feeds_silent; [cbn [xml.step]; by rewrite Hq, Hlt, Hamp|].
    change (attr_value (Raw b :: t)) with ([b] ++ attr_value t).
    rewrite app_assoc. by apply IH.
  - cbn [quoted_ok] in Hok. apply andb_prop in Hok as [[Href Hres]%andb_prop Hok].
    destruct (xml.resolve ref) as [x|] eqn:Hx; [|done].
    change (render_text (Ref ref :: t))
      with ("&"%byte :: (ref ++ [";"%byte]) ++ render_text t).
    change (attr_value (Ref ref :: t))
      with (default [] (xml.resolve ref) ++ attr_value t).
    rewrite Hx. cbn [default]. rewrite app_assoc.
    eapply feeds_silent; [by destruct (quote_inv q Hquote) as [-> | ->]|].
    eapply feeds_app_silent; [|by apply IH].
    eapply feeds_app_silent; [by apply feeds_attr_ref|].
    eapply feeds_silent; [|apply feeds_nil].
    cbn. by rewrite Hx.
Qed.

Lemma tag_like_StartName (buf : list byte) :
  tag_like (xml.StartName buf) (name_of buf) [].
Proof. intros stk b Hb. cbn [xml.step]. by rewrite Hb. Qed.

Lemma tag_like_StartAfter (name : string) (seen : list string) :
  tag_like (xml.StartAfter name seen) name seen.
Proof. by intros stk b Hb. Qed.

(** White space in a start tag, at least one byte of it. *)
Lemma feeds_tag_space (m : xml.mode) (name : string) (seen : list string)
    (b : byte) (sp : list byte) (stk : list string) :
  tag_like m name seen →
  spaces (b :: sp) = true →
  feeds m stk (b :: sp) [] (xml.StartSpace name seen) stk.
Proof.
  intros Hm [Hb Hsp]%andb_prop.
  eapply feeds_silent; [|by apply feeds_StartSpace].
  rewrite Hm by by apply space_not_name. unfold xml.in_tag. by rewrite Hb.
Qed.

Lemma feeds_attribute (m : xml.mode) (name : string) (seen : list string)
    (a : attribute) (stk : list string) :
  tag_like m name seen →
  attribute_ok a = true →
  name_of (a_name a) ∉ seen →
  feeds m stk (render_attribute a) []
    (xml.StartAfter name (name_of (a_name a) :: seen)) stk.
Proof.
  intros Hm Hok Hnew. unfold attribute_ok in Hok.
  destruct a as [sp n pre post q val]; cbn [a_space a_name a_pre a_post a_quote a_value] in *.
  apply andb_prop in Hok as [Hok Hvalid]. apply andb_prop in Hok as [Hok Hval].
  apply andb_prop in Hok as [Hok Hquote]. apply andb_prop in Hok as [Hok Hpost].
  apply andb_prop in Hok as [Hok Hpre]. apply andb_prop in Hok as [Hok Hname].
  apply andb_prop in Hok as [Hsp Hnonempty].
  destruct sp as [|b sp]; [done|]. destruct n as [|c n]; [done|].
  apply andb_prop in Hname as [Hc Hn].
  destruct (name_start_plain c Hc) as (Hc1 & Hc2 & Hc3 & _ & _ & Hc4).
  unfold render_attribute; cbn [a_space a_name a_pre a_post a_quote a_value].
  eapply feeds_app_silent; [by apply (feeds_tag_space m name seen)|].
  eapply (feeds_app_silent _ _ (c :: n)).
  { eapply feeds_silent;
      [cbn [xml.step]; unfold xml.in_tag; by rewrite Hc1, Hc2, Hc3, Hc|].
    by apply (feeds_AttrName name seen [c]). }
  change ([c] ++ n) with (c :: n).
  assert (feeds (xml.AttrName name seen (c :: n)) stk (pre ++ lit "=") []
            (xml.AttrEq name (name_of (c :: n) :: seen)) stk) as Heq.
  { destruct pre as [|p pre].
    - eapply feeds_silent; [|apply feeds_nil].
      cbn [xml.step]. change (xml.isNameByte "=") with false. cbv iota.
      unfold xml.attr_named. fold (name_of (c :: n)).
      by rewrite bool_decide_false.
    - apply andb_prop in Hpre as [Hp Hpre].
      eapply feeds_silent.
      { cbn [xml.step]. rewrite (space_not_name p Hp).
        unfold xml.attr_named. fold (name_of (c :: n)).
        by rewrite bool_decide_false, Hp. }
      eapply feeds_app_silent; [by apply feeds_AttrNameSpace|].
      eapply feeds_silent; [reflexivity|apply feeds_nil]. }
  rewrite (app_assoc pre).
  eapply feeds_app_silent; [exact Heq|].
  eapply feeds_app_silent; [by apply feeds_AttrEq|].
  pose proof (quote_inv q Hquote) as Hq.
  eapply feeds_silent.
  { cbn [xml.step]. rewrite Hquote. by destruct Hq as [-> | ->]. }
  eapply feeds_app_silent; [by apply feeds_attr_value|].
  eapply feeds_silent; [|apply feeds_nil].
  cbn [xml.step app]. rewrite Hvalid.
  by destruct Hq as [-> | ->].
Qed.

Lemma feeds_attributes (attrs : list attribute) (m : xml.mode) (name : string)
    (seen : list string) (stk : list string) :
  tag_like m name seen →
  attributes_ok seen attrs = true →
  ∃ m' seen',
    feeds m stk (flat_map render_attribute attrs) [] m' stk ∧ tag_like m' name seen'.
Proof.
  revert m seen. induction attrs as [|a attrs IH]; intros m seen Hm Hok.
  - exists m, seen. split; [apply feeds_nil|done].
  - cbn [attributes_ok] in Hok.
    apply andb_prop in Hok as [[Ha Hnew]%andb_prop Hok].
    apply negb_true_iff, bool_decide_eq_false in Hnew.
    destruct (IH _ _ (tag_like_StartAfter name _) Hok) as (m' & seen' & Hfeed & Hm').
    exists m', seen'. split; [|done].
    cbn [flat_map]. eapply feeds_app_silent; [by apply feeds_attribute|exact Hfeed].
Qed.

(** The end of a start tag. *)
Lemma feeds_tag_close (m : xml.mode) (name : string) (seen : list string)
    (sp : list byte) (stk : list string) :
  tag_like m name seen →
  spaces sp = true →
  feeds m stk (sp ++ lit ">") [xml.StartElement name] xml.fresh (name :: stk).
Proof.
  intros Hm Hsp. destruct sp as [|b sp].
  - rewrite <-(app_nil_r [xml.StartElement _]).
    eapply feeds_cons; [|apply feeds_nil]. by rewrite Hm.
  - eapply feeds_app_silent; [by apply (feeds_tag_space m name seen)|].
    rewrite <-(app_nil_r [xml.StartElement _]).
    eapply feeds_cons; [|apply feeds_nil]. reflexivity.
Qed.

Lemma feeds_tag_empty (m : xml.mode) (name : string) (seen : list string)
    (sp : list byte) (stk : list string) :
  tag_like m name seen →
  spaces sp = true →
  feeds m stk (sp ++ lit "/>") [xml.StartElement name; xml.EndElement name]
    xml.fresh stk.
Proof.
  intros Hm Hsp.
  assert (feeds (xml.StartSlash name) stk (lit ">")
            [xml.StartElement name; xml.EndElement name] xml.fresh stk) as Hend.
  { rewrite <-(app_nil_r [_; _]). eapply feeds_cons; [|apply feeds_nil]. reflexivity. }
  destruct sp as [|b sp].
  - eapply feeds_silent; [|exact Hend]. by rewrite Hm.
  - eapply feeds_app_silent; [by apply (feeds_tag_space m name seen)|].
    eapply feeds_silent; [reflexivity|exact Hend].
Qed.

(** A start tag from its name on, up to where it ends. *)
Lemma feeds_tag (name : list byte) (attrs : list attribute) (stk : list string) :
  xml.isName name = true →
  attributes_ok [] attrs = true →
  ∃ m seen,
    feeds xml.Lt stk (name ++ flat_map render_attribute attrs) [] m stk
    ∧ tag_like m (name_of name) seen.
Proof.
  intros Hname Hattrs. destruct name as [|c n]; [done|].
  apply andb_prop in Hname as [Hc Hn].
  destruct (name_start_plain c Hc) as (_ & _ & Hc3 & Hc4 & Hc5 & _).
  destruct (feeds_attributes attrs (xml.StartName (c :: n)) (name_of (c :: n)) [] stk
              (tag_like_StartName _) Hattrs) as (m & seen & Hfeed & Hm).
  exists m, seen. split; [|done].
  eapply feeds_app_silent; [|exact Hfeed].
  eapply feeds_silent; [cbn [xml.step]; by rewrite Hc3, Hc4, Hc5, Hc|].
  by apply (feeds_StartName [c]).
Qed.

Lemma feeds_start_tag (name : list byte) (attrs : list attribute) (sp : list byte)
    (stk : list string) :
  tag_ok name attrs sp = true →
  feeds xml.Lt stk (render_tag name attrs sp ++ lit ">")
    [xml.StartElement (name_of name)] xml.fresh (name_of name :: stk).
Proof.
  intros [[Hname Hattrs]%andb_prop Hsp]%andb_prop.
  destruct (feeds_tag name attrs stk Hname Hattrs) as (m & seen & Hfeed & Hm).
  unfold render_tag. rewrite <-!app_assoc, (app_assoc name).
  eapply feeds_app_silent; [exact Hfeed|]. by apply (feeds_tag_close m _ seen).
Qed.

Lemma feeds_empty_tag (name : list byte) (attrs : list attribute) (sp : list byte)
    (stk : list string) :
  tag_ok name attrs sp = true →
  feeds xml.Lt stk (render_tag name attrs sp ++ lit "/>")
    [xml.StartElement (name_of name); xml.EndElement (name_of name)] xml.fresh stk.
Proof.
  intros [[Hname Hattrs]%andb_prop Hsp]%andb_prop.
  destruct (feeds_tag name attrs stk Hname Hattrs) as (m & seen & Hfeed & Hm).
  unfold render_tag. rewrite <-!app_assoc, (app_assoc name).
  eapply feeds_app_silent; [exact Hfeed|]. by apply (feeds_tag_empty m _ seen).
Qed.

Lemma feeds_end_tag (name endsp : list byte) (stk : list string) :
  xml.isName name = true →
  spaces endsp = true →
  feeds xml.Lt (name_of name :: stk) (lit "/" ++ name ++ endsp ++ lit ">")
    [xml.EndElement (name_of name)] xml.fresh stk.
Proof.
  intros Hname Hsp.
  eapply feeds_silent; [reflexivity|].
  eapply feeds_app_silent; [by apply feeds_EndName|].
  assert (∀ m, (∀ b, xml.isNameByte b = false →
                  xml.step m (name_of name :: stk) b
                  = xml.step (xml.EndSpace (name_of name)) (name_of name :: stk) b) →
            feeds m (name_of name :: stk) (lit ">")
              [xml.EndElement (name_of name)] xml.fresh stk) as Hclose.
  { intros m Hm. rewrite <-(app_nil_r [_]). eapply feeds_cons; [|apply feeds_nil].
    rewrite Hm by done. cbn. by rewrite String.eqb_refl. }
  assert (∀ b, xml.isNameByte b = false →
            xml.step (xml.EndName name) (name_of name :: stk) b
            = xml.step (xml.EndSpace (name_of name)) (name_of name :: stk) b) as Hm.
  { intros b Hb. cbn [xml.step]. destruct name; [done|]. by rewrite Hb. }
  destruct endsp as [|b sp].
  - by apply Hclose.
  - apply andb_prop in Hsp as [Hb Hsp].
    eapply feeds_silent.
    { rewrite Hm by by apply space_not_name. cbn [xml.step]. by rewrite Hb. }
    eapply feeds_app_silent; [by apply feeds_EndSpace|].
    by apply Hclose.
Qed.

(** *** Markup and content *)

Lemma feeds_markup_content :
  (∀ m, markup_ok m = true →
        ∀ stk, feeds xml.Lt stk (tail m) (tokens m) xml.fresh stk)
  ∧ (∀ c, content_ok c = true →
        ∀ stk, feeds xml.fresh stk (render_content c ++ lit "<") (content_tokens c)
                 xml.Lt stk).
Proof.
  apply markup_and_content.
  - intros body Hok stk. by apply feeds_comment_tail.
  - intros target data Hok stk. by apply feeds_pi_tail.
  - intros body [Hok Hvalid]%andb_prop stk. by apply feeds_cdata_tail.
  - intros name attrs sp Hok stk. by apply feeds_empty_tag.
  - intros name attrs sp body IH endsp Hok stk.
    cbn [markup_ok] in Hok. apply andb_prop in Hok as [[Htag Hbody]%andb_prop Hsp].
    pose proof Htag as [[Hname _]%andb_prop _]%andb_prop.
    cbn [tail tokens].
    rewrite (app_assoc (render_tag _ _ _)).
    change (?x :: ?l ++ [?y]) with ([x] ++ l ++ [y]).
    eapply feeds_app; [by apply feeds_start_tag|].
    change (lit "</" ++ ?l) with (lit "<" ++ lit "/" ++ l).
    rewrite (app_assoc (render_content body)).
    eapply feeds_app; [by apply IH|].
    by apply feeds_end_tag.
  - intros t Hok stk. by apply feeds_text_lt.
  - intros t m IHm rest IHrest Hok stk.
    cbn [content_ok] in Hok. apply andb_prop in Hok as [[Htext Hm]%andb_prop Hrest].
    cbn [render_content content_tokens].
    rewrite <-!app_assoc, (app_assoc (render_text t)).
    eapply feeds_app; [by apply feeds_text_lt|].
    eapply feeds_app; [by apply IHm|by apply IHrest].
Qed.

(** *** White space between markup *)

Lemma spaces_value (sp : list byte) (cr : bool) :
  spaces sp = true → spaces (value cr (Raw <$> sp)) = true.
Proof.
  revert cr. induction sp as [|b sp IH]; intros cr Hsp; [done|].
  apply andb_prop in Hsp as [Hb Hsp]. cbn [fmap list_fmap value].
  destruct (xml.byte_is "013" b); [by apply (IH true)|].
  destruct (cr && xml.byte_is "010" b); [by apply IH|].
  cbn [spaces forallb]. rewrite Hb. by apply (IH false).
Qed.

Lemma spaces_raw_ok (sp : list byte) (br : nat) :
  spaces sp = true → raw_ok br (Raw <$> sp) = true.
Proof.
  revert br. induction sp as [|b sp IH]; intros br Hsp; [done|].
  apply andb_prop in Hsp as [Hb Hsp]. cbn [fmap list_fmap raw_ok].
  rewrite (IH _ Hsp). by destruct (isSpace_inv b Hb) as [->|[->|[->| ->]]].
Qed.

Lemma spaces_utf8_valid (s : list byte) :
  spaces s = true → xml.utf8_valid s = true.
Proof.
  unfold xml.utf8_valid. induction s as [|b s IH]; intros Hs; [done|].
  apply andb_prop in Hs as [Hb Hs]. cbn [xml.utf8_from].
  by destruct (isSpace_inv b Hb) as [->|[->|[->| ->]]]; apply IH.
Qed.

Lemma render_text_raw (s : list byte) : render_text (Raw <$> s) = s.
Proof. induction s as [|b s IH]; [done|]. cbn. by f_equal. Qed.

(** White space up to the [<] after it. *)
Lemma feeds_space_lt (sp : list byte) (stk : list string) :
  spaces sp = true →
  feeds xml.fresh stk (sp ++ lit "<") (emitted (plain sp)) xml.Lt stk.
Proof.
  intros Hsp. rewrite <-(render_text_raw sp) at 1. apply feeds_text_lt.
  unfold text_ok. rewrite spaces_raw_ok by done.
  by rewrite spaces_utf8_valid by by apply spaces_value.
Qed.

(** *** Documents *)

Lemma feeds_before (items : list (list byte * misc)) :
  forallb (λ sm, spaces sm.1 && misc_ok sm.2) items = true →
  feeds xml.fresh [] (flat_map (λ sm, sm.1 ++ render_misc sm.2) items)
    (flat_map (λ sm, emitted (plain sm.1)) items) xml.fresh [].
Proof.
  induction items as [|[sp m] items IH]; intros Hok; [apply feeds_nil|].
  cbn [forallb fst snd] in Hok.
  apply andb_prop in Hok as [[Hsp Hm]%andb_prop Hok].
  cbn [flat_map fst snd]. unfold render_misc. rewrite <-app_assoc, (app_assoc sp).
  eapply feeds_app; [|by apply IH].
  rewrite <-(app_nil_r (emitted _)), (app_assoc sp (lit "<")).
  eapply feeds_app; [by apply feeds_space_lt|by apply feeds_misc].
Qed.

Lemma feeds_document (d : document.t) :
  well_formed d = true →
  feeds xml.fresh [] (render d) (document_tokens d) xml.fresh [].
Proof.
  unfold well_formed. intros Hok.
  apply andb_prop in Hok as [Hok Hroot]. apply andb_prop in Hok as [Hok _].
  apply andb_prop in Hok as [Hbefore Hlead].
  unfold render, document_tokens, before_tokens, render_markup.
  rewrite <-app_assoc, (app_assoc (lead d)).
  eapply feeds_app; [by apply feeds_before|].
  eapply feeds_app; [by apply feeds_space_lt|].
  by apply feeds_markup_content.
Qed.

(** The scan of a stream that starts with a well-formed document gives the
    tokens of the document first. *)
Lemma scan_document (d : document.t) (junk : list byte) (f : option error) :
  well_formed d = true →
  ∃ later e, xml.scan xml.fresh [] (render d ++ junk) f = (document_tokens d ++ later, e).
Proof.
  intros Hok. unfold xml.scan. rewrite (feed_app _ _ _ _ _ _ _ (feeds_document d Hok)).
  destruct (xml.feed xml.fresh [] junk) as [ts [[m stk]|e]].
  - destruct (xml.finish m stk f) as [ts' e]. exists (ts ++ ts'), e.
    by rewrite app_assoc.
  - by exists ts, e.
Qed.

(** *** The mapping *)

Lemma unmarshal_emitted (p : xml.place) (v : xml.Target) (s : list byte)
    (ts : list xml.Token) (e : error) (p' : xml.place) :
  (∀ ts', xml.unmarshal p v (xml.CharData s :: ts') e = xml.unmarshal p' v ts' e) →
  (s = [] → p' = p) →
  xml.unmarshal p v (emitted s ++ ts) e = xml.unmarshal p' v ts e.
Proof. intros Hp Hnil. destruct s; [by rewrite Hnil|apply Hp]. Qed.

(** Markup and content inside an element that is passed over change
    nothing. *)
Lemma unmarshal_Skipping :
  (∀ m depth v ts e,
     xml.unmarshal (xml.Skipping depth) v (tokens m ++ ts) e
     = xml.unmarshal (xml.Skipping depth) v ts e)
  ∧ (∀ c depth v ts e,
     xml.unmarshal (xml.Skipping depth) v (content_tokens c ++ ts) e
     = xml.unmarshal (xml.Skipping depth) v ts e).
Proof.
  apply markup_and_content.
  - done.
  - done.
  - done.
  - done.
  - intros name attrs sp body IH endsp depth v ts e.
    cbn [tokens]. rewrite <-app_comm_cons, <-app_assoc. cbn [xml.unmarshal].
    by rewrite IH.
  - intros t depth v ts e. by apply unmarshal_emitted.
  - intros t m IHm rest IHrest depth v ts e.
    cbn [content_tokens]. rewrite <-!app_assoc.
    rewrite (unmarshal_emitted _ _ _ _ _ (xml.Skipping depth)) by done.
    by rewrite IHm, IHrest.
Qed.

(** The same holds inside an element in the element of a field. *)
Lemma unmarshal_InField_deep :
  (∀ m n text depth v ts e,
     xml.unmarshal (xml.InField n text (S depth)) v (tokens m ++ ts) e
     = xml.unmarshal (xml.InField n text (S depth)) v ts e)
  ∧ (∀ c n text depth v ts e,
     xml.unmarshal (xml.InField n text (S depth)) v (content_tokens c ++ ts) e
     = xml.unmarshal (xml.InField n text (S depth)) v ts e).
Proof.
  apply markup_and_content.
  - done.
  - done.
  - done.
  - done.
  - intros name attrs sp body IH endsp n text depth v ts e.
    cbn [tokens]. rewrite <-app_comm_cons, <-app_assoc. cbn [xml.unmarshal].
    by rewrite IH.
  - intros t n text depth v ts e. by apply unmarshal_emitted.
  - intros t m IHm rest IHrest n text depth v ts e.
    cbn [content_tokens]. rewrite <-!app_assoc.
    rewrite (unmarshal_emitted _ _ _ _ _ (xml.InField n text (S depth))) by done.
    by rewrite IHm, IHrest.
Qed.

(** The element of a field collects the text directly inside it. *)
Lemma unmarshal_InField (c : content) (n : string) (text : list byte)
    (v : xml.Target) (ts : list xml.Token) (e : error) :
  xml.unmarshal (xml.InField n text 0) v (content_tokens c ++ ts) e
  = xml.unmarshal (xml.InField n (text ++ direct_text c) 0) v ts e.
Proof.
  revert text. induction c as [t|t m rest IH]; intros text.
  - cbn [content_tokens direct_text].
    apply unmarshal_emitted; [done|]. intros ->. by rewrite app_nil_r.
  - cbn [content_tokens direct_text]. rewrite <-!app_assoc.
    rewrite (unmarshal_emitted _ _ _ _ _ (xml.InField n (text ++ value false t) 0));
      [|done|intros ->; by rewrite app_nil_r].
    rewrite !app_assoc, <-(app_assoc _ (content_tokens rest)).
    destruct m as [body|target data|body|name attrs sp|name attrs sp body endsp].
    + rewrite app_nil_r. apply IH.
    + rewrite app_nil_r. apply IH.
    + cbn [tokens app xml.unmarshal]. apply IH.
    + rewrite app_nil_r. cbn [tokens app xml.unmarshal]. apply IH.
    + rewrite app_nil_r. cbn [tokens]. rewrite <-app_comm_cons, <-app_assoc.
      cbn [xml.unmarshal]. rewrite (proj2 unmarshal_InField_deep).
      cbn [app xml.unmarshal]. apply IH.
Qed.

(** Among the children of the root element the fields are filled in. *)
Lemma unmarshal_InRoot (c : content) (v : xml.Target) (ts : list xml.Token) (e : error) :
  xml.unmarshal xml.InRoot v (content_tokens c ++ ts) e
  = xml.unmarshal xml.InRoot (fill v c) ts e.
Proof.
  revert v. induction c as [t|t m rest IH]; intros v.
  - cbn [content_tokens fill]. by apply unmarshal_emitted.
  - cbn [content_tokens fill]. rewrite <-!app_assoc.
    rewrite (unmarshal_emitted _ _ _ _ _ xml.InRoot) by done.
    destruct m as [body|target data|body|name attrs sp|name attrs sp body endsp].
    + apply IH.
    + apply IH.
    + cbn [tokens app xml.unmarshal]. apply IH.
    + cbn [tokens app xml.unmarshal].
      destruct (xml.Fields v !! name_of name); cbn [xml.unmarshal]; apply IH.
    + cbn [tokens]. rewrite <-app_comm_cons, <-app_assoc. cbn [xml.unmarshal].
      destruct (xml.Fields v !! name_of name).
      * rewrite unmarshal_InField. cbn [app xml.unmarshal]. apply IH.
      * rewrite (proj2 unmarshal_Skipping). cbn [app xml.unmarshal]. apply IH.
Qed.

(** White space before the root element is passed over. *)
Lemma unmarshal_space (sp : list byte) (v : xml.Target) (ts : list xml.Token)
    (e : error) :
  spaces sp = true →
  xml.unmarshal xml.Outside v (emitted (plain sp) ++ ts) e
  = xml.unmarshal xml.Outside v ts e.
Proof.
  intros Hsp. apply unmarshal_emitted; [|done].
  intros ts'. cbn [xml.unmarshal].
  pose proof (spaces_value sp false Hsp) as Hval. unfold spaces, plain in *.
  by rewrite Hval.
Qed.

Lemma unmarshal_before (d : document.t) (v : xml.Target) (ts : list xml.Token)
    (e : error) :
  well_formed d = true →
  xml.unmarshal xml.Outside v (before_tokens d ++ ts) e
  = xml.unmarshal xml.Outside v ts e.
Proof.
  unfold well_formed. intros Hok.
  apply andb_prop in Hok as [Hok _]. apply andb_prop in Hok as [Hok _].
  apply andb_prop in Hok as [Hbefore Hlead].
  unfold before_tokens. rewrite <-app_assoc.
  induction (before d) as [|[sp m] items IH].
  - by apply unmarshal_space.
  - cbn [forallb fst snd] in Hbefore.
    apply andb_prop in Hbefore as [[Hsp _]%andb_prop Hbefore].
    cbn [flat_map fst]. rewrite <-app_assoc, unmarshal_space by done. by apply IH.
Qed.

(** A stream that starts with a well-formed document for the target is
    parsed into the target populated from the document. *)
Lemma parse_document (d : document.t) (v : xml.Target) (junk : list byte)
    (f : option error) :
  well_formed d = true →
  maps_into v d →
  xml.parse (mkReader (render d ++ junk) f) v = (populate v d, None).
Proof.
  intros Hok Hv. unfold xml.parse. cbn [data fault].
  destruct (scan_document d junk f Hok) as (later & e & ->).
  unfold document_tokens. rewrite <-app_assoc, unmarshal_before by done.
  unfold well_formed in Hok. apply andb_prop in Hok as [Hok _].
  apply andb_prop in Hok as [_ Helem].
  unfold maps_into, root_name, populate in *.
  assert (∀ n, (xml.XMLName v = "" ∨ xml.XMLName v = n) →
            String.eqb (xml.XMLName v) "" || String.eqb (xml.XMLName v) n = true)
    as Hname.
  { intros n [-> | ->]; [done|]. by rewrite String.eqb_refl, orb_true_r. }
  destruct (root d) as [| | |name attrs sp|name attrs sp body endsp]; try done.
  - cbn [tokens app xml.unmarshal]. by rewrite Hname.
  - cbn [tokens]. rewrite <-app_comm_cons, <-app_assoc. cbn [xml.unmarshal].
    rewrite Hname by done. by rewrite unmarshal_InRoot.
Qed.

(** *** The declaration *)

Lemma skip_space_app (sp s : list byte) :
  spaces sp = true →
  match s with b :: _ => xml.isSpace b = false | [] => True end →
  xml.skip_space (sp ++ s) = s.
Proof.
  intros Hsp Hs. induction sp as [|b sp IH].
  - destruct s as [|b s]; [done|]. cbn. by rewrite Hs.
  - apply andb_prop in Hsp as [Hb Hsp]. cbn. rewrite Hb. by apply IH.
Qed.

Lemma scan_pi_end (content buf rest : list byte) (qm : bool) :
  pi_data_ok qm content = true →
  xml.scan_pi buf qm (content ++ lit "?>" ++ rest) = Some (buf ++ content, rest).
Proof.
  revert buf qm. induction content as [|b content IH]; intros buf qm Hok.
  - rewrite app_nil_r. change ([] ++ lit "?>" ++ rest) with ("?"%byte :: ">"%byte :: rest).
    cbn [xml.scan_pi].
    change (xml.byte_is ">" "?") with false. change (xml.byte_is "?" "?") with true.
    change (xml.byte_is ">" ">") with true.
    rewrite andb_false_r. cbn [andb]. by rewrite removelast_last.
  - cbn [pi_data_ok] in Hok. apply andb_prop in Hok as [Hb%negb_true_iff Hok].
    cbn [app xml.scan_pi]. rewrite Hb, (IH _ _ Hok). by rewrite <-app_assoc.
Qed.

Lemma prolog_declaration (x : declaration) (rest : list byte) :
  declaration_ok x = true →
  xml.prolog (render_declaration x ++ rest) = xml.Declaration (d_content x) rest.
Proof.
  unfold declaration_ok, render_declaration. intros Hok.
  apply andb_prop in Hok as [Hok _]. apply andb_prop in Hok as [Hok Hdata].
  apply andb_prop in Hok as [Hok Hfirst]. apply andb_prop in Hok as [Hsp Hne].
  destruct (d_space x) as [|b sp] eqn:Hspace; [done|].
  pose proof Hsp as [Hb _]%andb_prop.
  unfold xml.prolog. rewrite <-!app_assoc.
  change (xml.strip_prefix (list_byte_of_string "<?xml") (lit "<?xml" ++ ?s))
    with (Some s).
  cbn [app]. rewrite (space_not_name b Hb).
  rewrite (app_comm_cons sp _ b), skip_space_app; [|done|].
  - by rewrite scan_pi_end.
  - destruct (d_content x) as [|c content]; [done|]. by apply negb_true_iff.
Qed.

End Documents.

(** *** The decoder with its charset layer *)

Section Decoder.
Import document.
Context (layer : charset.Layer).

(** After a declaration of another encoding than UTF-8 that the layer
    recognises, [Decode] parses what the layer makes of the rest. *)
Lemma Decode_transcoded (x : declaration) (rest : list byte) (f : option error)
    (body' : Reader) (v : xml.Target) :
  declaration_ok x = true →
  xml.is_default (encoding x) = false →
  layer (encoding x) (mkReader rest f) = inl body' →
  Decode layer (mkReader (render_declaration x ++ rest) f) v = xml.parse body' v.
Proof.
  intros Hdecl Henc Hlayer.
  unfold Decode, xml.Decode, xml.NewDecoder; cbn [xml.r xml.CharsetReader data fault].
  rewrite prolog_declaration by done.
  unfold declaration_ok in Hdecl. apply andb_prop in Hdecl as [_ Hver].
  unfold version, encoding in *. by rewrite Hver, Henc, Hlayer.
Qed.

(** C5: [Decode] on an empty input stream returns a non-nil error: the
    end-of-input error of the parser (or the error of the stream, if it
    fails rather than ends), for every target. *)
Theorem Decode_empty (f : option error) (v : xml.Target) :
  Decode layer (mkReader [] f) v = (v, Some (default io_EOF f)).
Proof. by destruct f. Qed.


(** Without a declaration, or with one of UTF-8, the stream itself is the
    document. *)
Lemma Decode_document (d : document.t) (junk : list byte) (f : option error)
    (v : xml.Target) :
  xml.prolog (render d ++ junk) = xml.NoDeclaration →
  well_formed d = true →
  maps_into v d →
  Decode layer (mkReader (render d ++ junk) f) v = (populate v d, None).
Proof.
  intros Hprolog Hd Hv.
  unfold Decode, xml.Decode, xml.NewDecoder; cbn [xml.r xml.CharsetReader data fault].
  rewrite Hprolog. by apply parse_document.
Qed.

End Decoder.

(** *** ISO-8859-1 *)

(** A document in ISO-8859-1 that declares it: whatever its bytes, when
    their transcoding is the well-formed document [d], [Decode] with the
    layer [latin1] populates the target from [d]. *)
Lemma Decode_latin1 (x : document.declaration) (s : list byte) (f : option error)
    (d : document.t) (junk : list byte) (v : xml.Target) :
  document.declaration_ok x = true →
  xml.to_lower (document.encoding x) = "iso-8859-1" →
  flat_map latin1_utf8 s = document.render d ++ junk →
  document.well_formed d = true →
  document.maps_into v d →
  Decode latin1 (mkReader (document.render_declaration x ++ s) f) v
    = (document.populate v d, None).
Proof.
  intros Hdecl Henc Hs Hd Hv.
  assert (xml.is_default (document.encoding x) = false) as Hdefault.
  { unfold xml.is_default. rewrite Henc.
    by destruct (document.encoding x). }
  rewrite (Decode_transcoded latin1 x s f (mkReader (flat_map latin1_utf8 s) f))
    by (done || by unfold latin1; rewrite Henc).
  rewrite Hs. by apply parse_document.
Qed.

(** The two checks of [TestDecode] in [api_test.go]. *)
Example TestDecode_example :
  Decode latin1 (bytes_NewReader (list_byte_of_string exampleXml)) xmlType
    = (xml.mkTarget "root" {[ "somekey" := "hello!" ]}, None).
Proof. vm_compute. reflexivity. Qed.

Example TestDecode_no_input :
  (Decode latin1 (bytes_NewReader (list_byte_of_string "")) xmlType).2 ≠ None.
Proof. vm_compute. discriminate. Qed.

(** The document [latin1_document] is what the bytes of [latin1_doc] are in
    Unicode. *)
Example latin1_doc_document :
  latin1_doc = document.render_declaration latin1_declaration ++ latin1_body
  ∧ flat_map latin1_utf8 latin1_body
      = document.render latin1_document ++ document.lit "
"
  ∧ document.well_formed latin1_document = true
  ∧ xml.utf8_valid latin1_body = false.
Proof. repeat split; vm_compute; reflexivity. Qed.

(** The same bytes without the declaration are no UTF-8, and are refused. *)
Example Decode_undeclared :
  Decode latin1 (bytes_NewReader undeclared_doc) xmlType
    = (xmlType, Some (xml_SyntaxError "invalid UTF-8 or illegal character")).
Proof. vm_compute. reflexivity. Qed.

(** A decoder as [xml.NewDecoder] returns it, without the charset layer
    [Decode] installs, refuses the declaration. *)
Example Decode_without_layer :
  (xml.Decode (xml.NewDecoder (bytes_NewReader latin1_doc)) xmlType).2
    = Some (errors_New
              "xml: encoding ISO-8859-1 declared but Decoder.CharsetReader is nil").
Proof. vm_compute. reflexivity. Qed.

(** A stream that ends after the declaration holds no document: the parse
    ends before any element. *)
Example Decode_declaration_only :
  Decode latin1 (bytes_NewReader latin1_truncated) xmlType = (xmlType, Some io_EOF).
Proof. vm_compute. reflexivity. Qed.


(** What the target holds after it. *)
Example Decode_latin1_doc :
  Decode latin1 (bytes_NewReader latin1_doc) xmlType
    = (xml.mkTarget "root" {[ "somekey" := "café & théé <à la carte>" ]}, None).
Proof. vm_compute. reflexivity. Qed.

(** * Further properties *)

(** ** Strings and formats *)

Lemma length_append (s t : string) :
  String.length (s +:+ t) = String.length s + String.length t.
Proof. induction s as [|a s IH]; [done|]. rewrite append_cons. cbn. by rewrite IH. Qed.

Lemma append_cancel_r (s s' t : string) : s +:+ t = s' +:+ t → s = s'.
Proof.
  revert s'. induction s as [|a s IH]; intros [|a' s'] H.
  - done.
  - apply (f_equal String.length) in H. rewrite !length_append in H.
    cbn [String.length] in H. lia.
  - apply (f_equal String.length) in H. rewrite !length_append in H.
    cbn [String.length] in H. lia.
  - rewrite !append_cons in H. injection H as -> H. f_equal. by apply IH.
Qed.

Lemma append_cancel_l (s t t' : string) : s +:+ t = s +:+ t' → t = t'.
Proof.
  induction s as [|a s IH]; [done|]. rewrite !append_cons. intros [= H]. by apply IH.
Qed.

Lemma length_spec_params (kvs : list (string * string)) :
  String.length (spec_params kvs) = sum_list_with param_size kvs.
Proof.
  induction kvs as [|[k v] kvs IH]; [done|].
  cbn [spec_params sum_list_with]. rewrite !length_append, IH.
  unfold param_size; cbn. lia.
Qed.

(** [format_] one byte of the format further. *)
Lemma format_cons (a : ascii) (f : string) (args : list string) :
  fmt.format_ (String a f) args
    = if Ascii.eqb a "%" then
        match f with
        | String b f' =>
            if Ascii.eqb b "v" then
              match args with
              | x :: args' => x +:+ fmt.format_ f' args'
              | [] => "%!v(MISSING)" +:+ fmt.format_ f' []
              end
            else String a (fmt.format_ f args)
        | "" => String a (fmt.format_ f args)
        end
      else String a (fmt.format_ f args).
Proof.
  destruct (Ascii.eqb_spec a "%") as [->|Ha].
  - destruct f as [|b f']; [done|].
    destruct (Ascii.eqb_spec b "v") as [->|Hb]; [done|].
    destruct b as [[] [] [] [] [] [] [] []]; try reflexivity. by destruct Hb.
  - destruct a as [[] [] [] [] [] [] [] []]; try reflexivity. by destruct Ha.
Qed.

Lemma format_plain (f : string) : has_percent f = false → fmt.format_ f [] = f.
Proof.
  induction f as [|a f IH]; [done|]. cbn [has_percent].
  intros [Ha Hf]%orb_false_elim. rewrite format_cons, Ha. by rewrite IH.
Qed.

(** The first verb [%v] of a format without operands. *)
Lemma format_missing (a b : string) :
  has_percent a = false →
  fmt.format_ (a +:+ "%v" +:+ b) [] = a +:+ "%!v(MISSING)" +:+ fmt.format_ b [].
Proof.
  induction a as [|x a IH]; [done|]. cbn [has_percent].
  intros [Hx Ha]%orb_false_elim.
  rewrite (append_cons x a ("%v" +:+ b)), (append_cons x a ("%!v(MISSING)" +:+ _)).
  rewrite format_cons, Hx. by rewrite IH.
Qed.

Lemma Fprintf_v_plain : Fprintf_plain Fprintf_v.
Proof. intros f Hf. by apply format_plain. Qed.

Lemma Fprintf_v_missing : Fprintf_missing Fprintf_v.
Proof. intros a b Ha. eexists. by apply format_missing. Qed.

(** ** Pull, call by call *)

Section Calls.
Context {W : Type} (h : handler W).

Lemma Pull_requests (c : Client) (cmd : string) (q : gmap string string) (w : W) :
  requests (trace (run h (Pull cmd q c) w)) = [Pull_url c cmd (h _ (MapRange q) w).1].
Proof. rewrite Pull_run; cbv zeta. by destruct (h _ (http_Get _) _).1. Qed.

Lemma Pull_result (c : Client) (cmd : string) (q : gmap string string) (w : W) :
  ∃ r, (result (run h (Pull cmd q c) w)).1 = Pull_returns r.
Proof.
  rewrite Pull_run; cbv zeta.
  destruct (h _ (http_Get _) _).1 as [resp|err] eqn:E; cbn [result fst]; by eexists.
Qed.

(** X1: the calls of one [Pull], in order: the range over the query, one
    GET, and then, when and only when the GET gave a response, one Close of
    the body of that response, whether reading it worked or not and whatever
    Close answers; nothing after that. *)
Theorem Pull_calls (c : Client) (cmd : string) (q : gmap string string)
    (w : W) (url : string) (r : Response + error) :
  ev_Get url r ∈ trace (run h (Pull cmd q c) w) →
  ∃ (kvs : list (string * string)) (closing : list event),
    trace (run h (Pull cmd q c) w) = [ev_range q kvs; ev_Get url r] ++ closing ∧
    match r with
    | inl resp => ∃ x, closing = [ev_Close (Body resp) x]
    | inr _ => closing = []
    end.
Proof.
  rewrite Pull_run; cbv zeta.
  destruct (h _ (http_Get _) _).1 as [resp|err] eqn:E; cbn [trace];
    rewrite !elem_of_cons, elem_of_nil;
    intros [?|[[= -> ->]|H]]; try done.
  - eexists _, _. split; [reflexivity|]. by eexists.
  - by destruct H.
  - by eexists _, _.
Qed.

(** X2: of the two results of [Pull] exactly one is nil: bytes come with a
    nil error, an error comes with nil bytes. *)
Theorem Pull_bytes_xor_error (c : Client) (cmd : string) (q : gmap string string) (w : W) :
  let res := (result (run h (Pull cmd q c) w)).1 in
  (is_Some res.1 ∧ res.2 = None) ∨ (res.1 = None ∧ is_Some res.2).
Proof.
  intros res; subst res. destruct (Pull_result c cmd q w) as [r ->].
  destruct r as [resp|err]; cbn; [|by right].
  destruct (fault (Body resp)); cbn; [by right|by left].
Qed.

(** X3: [Pull] with a nil (or empty) query map asks for the base URL,
    [?cmd=], the command, [&key=] and the key, and nothing after the key. *)
Theorem Pull_nil_query (c : Client) (cmd : string) (w : W) :
  range_law h →
  requests (trace (run h (Pull cmd ∅ c) w))
    = [baseURL c +:+ "?cmd=" +:+ cmd +:+ "&key=" +:+ key c].
Proof.
  intros Hrange. rewrite Pull_requests, Pull_url_spec.
  specialize (Hrange ∅ w). rewrite map_to_list_empty in Hrange.
  apply Permutation_nil_r in Hrange as ->.
  unfold spec_target; cbn [spec_params]. by rewrite append_nil_r.
Qed.

Lemma perform_baseURL (s : Client * W) (o : op) :
  baseURL (perform h s o).1
    = match o with op_SetBaseURL u => u | _ => baseURL s.1 end.
Proof.
  destruct s as [c w], o as [u| | |cmd query]; unfold perform, invoke;
    cbn [fst snd]; rewrite ?run_bind_ret; try done.
  by rewrite Pull_receiver.
Qed.

(** X4: after any sequence of operations [BaseURL()] returns the argument of
    the last [SetBaseURL] in it, and what it returned before when there is
    none: the last write wins, and [BaseURL], [Key] and [Pull] write
    nothing. *)
Theorem BaseURL_last_set (c : Client) (ops : list op) (w : W) :
  let s := after h (c, w) ops in
  (result (run h (BaseURL s.1) s.2)).1 = last_set ops (baseURL c).
Proof.
  intros s. change (baseURL s.1 = last_set ops (baseURL c)). subst s.
  change c with (c, w).1 at 2. generalize (c, w). clear c w.
  induction ops as [|o ops IH]; intros s; [done|].
  unfold after, last_set in *; cbn [foldl]. by rewrite IH, perform_baseURL.
Qed.

(** X5: [SetBaseURL(u)] followed by [Pull] sends the one request to [u]: the
    target starts with [u], whatever the base URL was before. *)
Theorem SetBaseURL_Pull (u : string) (c : Client) (cmd : string)
    (q : gmap string string) (w : W) :
  range_law h →
  ∃ kvs : list (string * string),
    kvs ≡ₚ map_to_list q ∧
    requests (trace (run h ((_ ← SetBaseURL u; Pull cmd q) c) w))
      = [u +:+ "?cmd=" +:+ cmd +:+ "&key=" +:+ key c +:+ spec_params kvs].
Proof.
  intros Hrange. exists (h _ (MapRange q) w).1. split; [apply Hrange|].
  change (run h ((_ ← SetBaseURL u; Pull cmd q) c) w)
    with (run h (Pull cmd q {| key := key c; baseURL := u |}) w).
  by rewrite Pull_requests, Pull_url_spec.
Qed.

(** X6: nothing being escaped, the target does not tell a query entry from
    the tail of the key: a client with key [k] asking with the one entry
    [(p, v)] sends the same request as a client with the key [k&p=v] asking
    with no entry. *)
Theorem Pull_entry_as_key_suffix (c : Client) (cmd p v : string) (w : W) :
  range_law h →
  requests (trace (run h (Pull cmd {[ p := v ]} c) w))
    = requests (trace (run h (Pull cmd ∅
                                {| key := key c +:+ "&" +:+ p +:+ "=" +:+ v;
                                   baseURL := baseURL c |}) w)).
Proof.
  intros Hrange. rewrite !Pull_requests, !Pull_url_spec.
  pose proof (Hrange {[ p := v ]} w) as H1. rewrite map_to_list_singleton in H1.
  apply Permutation_singleton_r in H1 as ->.
  pose proof (Hrange ∅ w) as H0. rewrite map_to_list_empty in H0.
  apply Permutation_nil_r in H0 as ->.
  unfold spec_target; cbn [spec_params key baseURL].
  by rewrite !append_assoc.
Qed.

(** X7: for one client and no query entries the request determines the
    command: two commands that give the same target are the same. *)
Theorem Pull_command_determined (c : Client) (cmd cmd' : string) (w w' : W) :
  range_law h →
  requests (trace (run h (Pull cmd ∅ c) w))
    = requests (trace (run h (Pull cmd' ∅ c) w')) →
  cmd = cmd'.
Proof.
  intros Hrange. rewrite !Pull_requests, !Pull_url_spec.
  pose proof (Hrange ∅ w) as H0. rewrite map_to_list_empty in H0.
  apply Permutation_nil_r in H0 as ->.
  pose proof (Hrange ∅ w') as H0. rewrite map_to_list_empty in H0.
  apply Permutation_nil_r in H0 as ->.
  unfold spec_target. intros [= H].
  apply append_cancel_l, append_cancel_l in H. by apply append_cancel_r in H.
Qed.

(** X8: the length of the target does not depend on the order of iteration:
    it is the lengths of the base URL, the command and the key, ten bytes
    for [?cmd=] and [&key=], and for each entry of the query the lengths of
    its key and value and two bytes. *)
Theorem target_length (c : Client) (cmd : string) (q : gmap string string) (w : W) :
  range_law h →
  ∃ url : string,
    requests (trace (run h (Pull cmd q c) w)) = [url] ∧
    String.length url
      = String.length (baseURL c) + String.length cmd + String.length (key c)
        + 10 + sum_list_with param_size (map_to_list q).
Proof.
  intros Hrange. eexists. split; [apply Pull_requests|].
  rewrite Pull_url_spec. unfold spec_target.
  rewrite !length_append, length_spec_params, (Hrange q w). cbn. lia.
Qed.

(** ** Sessions *)

Lemma run_from_trace {A : Type} (p : Go A) (w : W) (tr : list event) :
  run_from h p w tr
    = mkOutcome (result (run h p w)) (world (run h p w)) (tr ++ trace (run h p w)).
Proof.
  unfold run. revert w tr. induction p as [a|X e k IH]; intros w tr; cbn.
  - by rewrite app_nil_r.
  - destruct (h X e w) as [x w']. rewrite (IH x w' [_]), (IH x w' (tr ++ _)).
    cbn. by rewrite <-app_assoc.
Qed.

Lemma run_from_bind {A B : Type} (f : A → Go B) (m : Go A) (w : W) (tr : list event) :
  run_from h (Go_bind f m) w tr
    = run_from h (f (result (run_from h m w tr)))
        (world (run_from h m w tr)) (trace (run_from h m w tr)).
Proof.
  revert w tr. induction m as [a|X e k IH]; intros w tr; cbn; [done|].
  destruct (h X e w) as [x w']. apply IH.
Qed.

(** A method and then another: the second runs on the client and in the world
    the first leaves, and the calls of both follow each other. *)
Lemma run_bind {A B : Type} (f : A → method B) (m : method A) (c : Client) (w : W) :
  run h ((m ≫= f) c) w
    = mkOutcome
        (result (run h (f (result (run h (m c) w)).1 (result (run h (m c) w)).2)
                   (world (run h (m c) w))))
        (world (run h (f (result (run h (m c) w)).1 (result (run h (m c) w)).2)
                  (world (run h (m c) w))))
        (trace (run h (m c) w)
           ++ trace (run h (f (result (run h (m c) w)).1 (result (run h (m c) w)).2)
                       (world (run h (m c) w)))).
Proof.
  unfold mbind, method_bind. unfold run at 1.
  rewrite run_from_bind. fold (run h (m c) w).
  by rewrite run_from_trace.
Qed.

Lemma invoke_requests (o : op) (c : Client) (w : W) :
  length (requests (trace (run h (invoke o c) w))) = if is_Pull o then 1 else 0.
Proof.
  destruct o as [u| | |cmd query]; try done.
  unfold invoke. rewrite run_bind; cbn [trace].
  unfold requests. rewrite omap_app, length_app.
  fold (requests (trace (run h (Pull cmd query c) w))).
  by rewrite Pull_requests.
Qed.

(** X9: a session of operations on one client sends exactly as many GET
    requests as it has [Pull]s: [SetBaseURL], [BaseURL] and [Key] send none,
    a [Pull] sends one, and none is repeated. *)
Theorem session_requests (ops : list op) (c : Client) (w : W) :
  length (requests (trace (run h (session ops c) w))) = length (filter is_Pull ops).
Proof.
  revert c w. induction ops as [|o ops IH]; intros c w; [done|].
  cbn [session]. rewrite run_bind; cbn [trace].
  unfold requests at 1. rewrite omap_app, length_app.
  fold (requests (trace (run h (invoke o c) w))).
  rewrite invoke_requests.
  match goal with |- context [omap _ (trace ?o)] => fold (requests (trace o)) end.
  rewrite IH, filter_cons. by destruct (is_Pull o).
Qed.
End Calls.

(** ** The package with endpoints *)

Section Endpoints.
Context {W : Type} (h : handler W).

(** [Pull] on a client with an endpoint runs as [Pull] on the client with
    that endpoint as its base URL. *)
Lemma Pull2_run (c : bartapi2.Client) (cmd : string) (q : gmap string string) (w : W) :
  run h (bartapi2.Pull cmd q c) w
    = mkOutcome ((result (run h (Pull cmd q (with_baseURL c)) w)).1, c)
        (world (run h (Pull cmd q (with_baseURL c)) w))
        (trace (run h (Pull cmd q (with_baseURL c)) w)).
Proof.
  unfold run, bartapi2.Pull, Pull, mbind, method_bind, bartapi2.method_bind,
    mret, method_ret, bartapi2.method_ret, this, bartapi2.this, extern,
    bartapi2.extern, with_baseURL.
  cbn [Go_bind run_from fst snd answered app key baseURL].
  destruct (h _ (MapRange q) w) as [kvs w1]; cbn [Go_bind run_from fst snd answered app].
  destruct (h _ (http_Get _) w1) as [[resp|err] w2];
    cbn [Go_bind run_from fst snd answered app]; [|done].
  unfold ioutil_ReadAll.
  destruct (fault (Body resp)) as [err|];
    cbn [Go_bind run_from fst snd answered app];
    by destruct (h _ (Body_Close _) w2) as [x w3].
Qed.

Lemma discard_receiver {A : Type} (m : bartapi2.method A) (c : bartapi2.Client) (w : W) :
  (result (run h (bartapi2.discard m c) w)).2 = (result (run h (m c) w)).2.
Proof.
  unfold run, bartapi2.discard, mbind, bartapi2.method_bind, mret, bartapi2.method_ret.
  generalize (@nil event). revert w.
  induction (m c) as [[a c']|X e k IH]; intros w tr; cbn; [done|].
  destruct (h X e w) as [x w']. apply IH.
Qed.

Lemma perform2_client (s : bartapi2.Client * W) (o : op2) : (perform2 h s o).1 = s.1.
Proof.
  destruct s as [c w], o as [| |cmd query]; unfold perform2, invoke2;
    cbn [fst snd]; rewrite discard_receiver; try done.
  by rewrite Pull2_run.
Qed.

(** X10: a client with an endpoint never changes: after any sequence of
    [URL], [Key] and [Pull] calls on [New(k, u)], [URL()] returns [u] and
    [Key()] returns [k]. *)
Theorem endpoint_client_immutable (k : string) (u : bartapi2.Endpoint)
    (ops : list op2) (w : W) :
  let s := after2 h (bartapi2.New k u, w) ops in
  (result (run h (bartapi2.URL s.1) s.2)).1 = u ∧
  (result (run h (bartapi2.Key s.1) s.2)).1 = k.
Proof.
  intros s. change (bartapi2.url s.1 = u ∧ bartapi2.key s.1 = k).
  cut (s.1 = bartapi2.New k u); [by intros ->|].
  subst s. change (bartapi2.New k u) with (bartapi2.New k u, w).1 at 2.
  generalize (bartapi2.New k u, w).
  induction ops as [|o ops IH]; intros s; [done|].
  unfold after2 in *; cbn [foldl]. by rewrite IH, perform2_client.
Qed.

(** X11: [Pull] on a client with the endpoint [u] does what [Pull] does on a
    client of the package with a base URL whose base URL is [u] and whose key
    is the same: the same calls with the same arguments in the same order,
    and the same bytes and error. *)
Theorem endpoint_Pull_as_Pull (c : bartapi2.Client) (cmd : string)
    (q : gmap string string) (w : W) :
  let o2 := run h (bartapi2.Pull cmd q c) w in
  let o1 := run h (Pull cmd q (with_baseURL c)) w in
  (result o2).1 = (result o1).1 ∧ (result o2).2 = c ∧
  world o2 = world o1 ∧ trace o2 = trace o1.
Proof. cbv zeta. by rewrite Pull2_run. Qed.

(** X12: the advisory endpoint is the default base URL: [Pull] on
    [New(k, AdvisoryEndpoint)] does what [Pull] does on the [New(k)] of the
    package with a base URL. *)
Theorem advisory_is_default (k cmd : string) (q : gmap string string) (w : W) :
  let o2 := run h (bartapi2.Pull cmd q (bartapi2.New k bartapi2.AdvisoryEndpoint)) w in
  let o1 := run h (Pull cmd q (New k)) w in
  (result o2).1 = (result o1).1 ∧ world o2 = world o1 ∧ trace o2 = trace o1.
Proof. cbv zeta. by rewrite Pull2_run. Qed.
End Endpoints.

(** ** The test server *)

Lemma echo_lookup (kvs : list (string * list string)) (params : gmap string string) :
  NoDup kvs.*1 →
  (∀ k v, (k, v) ∈ kvs → v ≠ []) →
  ∃ m, testserver.echo params kvs = Some m ∧
       ∀ k, m !! k = match (list_to_map kvs : gmap string (list string)) !! k with
                     | Some v => head v
                     | None => params !! k
                     end.
Proof.
  revert params. induction kvs as [|[k0 v0] kvs IH]; intros params Hdup Hne.
  - by exists params.
  - apply NoDup_cons in Hdup as [Hk0 Hdup].
    destruct v0 as [|x0 v0]; [by destruct (Hne k0 []); [left|]|].
    destruct (IH (<[k0 := x0]> params) Hdup) as (m & Hm & Hlook).
    { intros k v Hkv. apply (Hne k v). by right. }
    exists m. split; [done|]. intros k. rewrite Hlook. cbn [list_to_map foldr].
    destruct (decide (k = k0)) as [->|Hk].
    + rewrite lookup_insert_eq.
      rewrite (not_elem_of_list_to_map_1 _ _ Hk0). by rewrite lookup_insert_eq.
    + by rewrite !lookup_insert_ne.
Qed.

Section Server.
Context (json_Marshal : gmap string string → string + error).
Context (range : gmap string (list string) → list (string * list string)).
Context (fmt_Fprintf : string → string).

Lemma echo_form (form : gmap string (list string)) :
  range form ≡ₚ map_to_list form →
  (∀ k v, form !! k = Some v → v ≠ []) →
  testserver.echo ∅ (range form) = Some (omap head form).
Proof.
  intros Hrange Hne.
  destruct (echo_lookup (range form) ∅) as (m & -> & Hlook).
  - rewrite Hrange. apply NoDup_fst_map_to_list.
  - intros k v Hkv. apply (Hne k). rewrite Hrange in Hkv.
    by apply elem_of_map_to_list.
  - f_equal. apply map_eq. intros k. rewrite Hlook, lookup_omap.
    rewrite (list_to_map_proper _ (map_to_list form)), list_to_map_to_list.
    + by destruct (form !! k).
    + rewrite Hrange. apply NoDup_fst_map_to_list.
    + done.
Qed.

(** X13: the test server marshals the map that sends each key of the form
    to its first value, in whatever order the runtime ranges over the form,
    and writes what [fmt.Fprintf] makes of that JSON as a format without
    operands; as [fmt] writes a format without a percent sign as it is, the
    body is the JSON itself when the JSON has no percent sign. *)
Theorem ServeHTTP_echo (req : testserver.Request) (resp : string) :
  range (testserver.Form req) ≡ₚ map_to_list (testserver.Form req) →
  testserver.ParseForm req = None →
  (∀ k v, testserver.Form req !! k = Some v → v ≠ []) →
  json_Marshal (omap head (testserver.Form req)) = inl resp →
  testserver.ServeHTTP json_Marshal range fmt_Fprintf req = Some (fmt_Fprintf resp) ∧
  (Fprintf_plain fmt_Fprintf → has_percent resp = false →
   testserver.ServeHTTP json_Marshal range fmt_Fprintf req = Some resp).
Proof.
  intros Hrange Hparse Hne Hjson.
  unfold testserver.ServeHTTP. rewrite Hparse, echo_form, Hjson by done.
  split; [done|]. intros Hplain Hresp. by rewrite Hplain.
Qed.

(** X14: the test server hands the JSON to [fmt.Fprintf] as the format: as
    [fmt] writes [%!v(MISSING)] for a verb [%v] that has no operand, the
    body written is not the JSON when the first percent sign of the JSON
    begins [%v] (from a key or a value of the form). *)
Theorem ServeHTTP_format_hazard (req : testserver.Request) (a b : string) :
  Fprintf_missing fmt_Fprintf →
  has_percent a = false →
  range (testserver.Form req) ≡ₚ map_to_list (testserver.Form req) →
  testserver.ParseForm req = None →
  (∀ k v, testserver.Form req !! k = Some v → v ≠ []) →
  json_Marshal (omap head (testserver.Form req)) = inl (a +:+ "%v" +:+ b) →
  ∃ body : string,
    testserver.ServeHTTP json_Marshal range fmt_Fprintf req = Some body ∧
    body ≠ a +:+ "%v" +:+ b.
Proof.
  intros Hmissing Ha Hrange Hparse Hne Hjson.
  unfold testserver.ServeHTTP. rewrite Hparse, echo_form, Hjson by done.
  destruct (Hmissing a b Ha) as [rest ->].
  eexists. split; [done|]. by intros H%append_cancel_l.
Qed.
End Server.

(** ** Witnesses *)

Lemma Pull_calls_witness :
  ∃ (kvs : list (string * string)) (closing : list event),
    trace (run (double_close (inl cut_off) (Some (net_Error "close")))
             (Pull "test" ∅ testclient) ())
      = [ev_range ∅ kvs; ev_Get "http://localhost/?cmd=test&key=testkey" (inl cut_off)]
          ++ closing ∧
    ∃ x, closing = [ev_Close (Body cut_off) x].
Proof.
  apply (Pull_calls (double_close (inl cut_off) (Some (net_Error "close")))
           testclient "test" ∅ () "http://localhost/?cmd=test&key=testkey" (inl cut_off)).
  vm_compute. apply list_elem_of_further, list_elem_of_here.
Defined.

Lemma Pull_nil_query_witness :
  requests (trace (run (double (inl not_found)) (Pull "test" ∅ testclient) ()))
    = ["http://localhost/" +:+ "?cmd=" +:+ "test" +:+ "&key=" +:+ "testkey"].
Proof.
  apply (Pull_nil_query (double (inl not_found)) testclient "test" ()).
  intros m w. reflexivity.
Defined.

Lemma SetBaseURL_Pull_witness :
  ∃ kvs : list (string * string),
    kvs ≡ₚ map_to_list params ∧
    requests (trace (run (double (inl not_found))
                       ((_ ← SetBaseURL "http://127.0.0.1:8080/"; Pull "test2" params)
                          (New "testkey")) ()))
      = ["http://127.0.0.1:8080/" +:+ "?cmd=" +:+ "test2" +:+ "&key=" +:+ "testkey"
           +:+ spec_params kvs].
Proof.
  apply (SetBaseURL_Pull (double (inl not_found)) "http://127.0.0.1:8080/"
           (New "testkey") "test2" params ()).
  intros m w. reflexivity.
Defined.

Lemma Pull_entry_as_key_suffix_witness :
  requests (trace (run (double (inl not_found))
                     (Pull "test" {[ "bacon" := "good" ]} testclient) ()))
    = requests (trace (run (double (inl not_found))
                         (Pull "test" ∅
                            {| key := "testkey" +:+ "&" +:+ "bacon" +:+ "=" +:+ "good";
                               baseURL := "http://localhost/" |}) ())).
Proof.
  apply (Pull_entry_as_key_suffix (double (inl not_found)) testclient "test"
           "bacon" "good" ()).
  intros m w. reflexivity.
Defined.

Lemma Pull_command_determined_witness : "test" = "test".
Proof.
  apply (Pull_command_determined (double (inl not_found)) testclient "test" "test" () ()).
  - intros m w. reflexivity.
  - reflexivity.
Defined.

Lemma target_length_witness :
  ∃ url : string,
    requests (trace (run (double (inl not_found)) (Pull "test2" params testclient) ()))
      = [url] ∧
    String.length url
      = String.length "http://localhost/" + String.length "test2"
        + String.length "testkey" + 10 + sum_list_with param_size (map_to_list params).
Proof.
  apply (target_length (double (inl not_found)) testclient "test2" params ()).
  intros m w. reflexivity.
Defined.

Lemma test_request_values (req : testserver.Request) :
  Forall (λ kv, kv.2 ≠ []) (map_to_list (testserver.Form req)) →
  ∀ k v, testserver.Form req !! k = Some v → v ≠ [].
Proof.
  intros Hall k v Hkv%elem_of_map_to_list.
  rewrite Forall_forall in Hall. apply (Hall (k, v) Hkv).
Qed.

Lemma ServeHTTP_echo_witness :
  testserver.ServeHTTP toy_json map_to_list Fprintf_v test_request
    = Some (Fprintf_v "{key:testkey;cmd:test;}") ∧
  (Fprintf_plain Fprintf_v → has_percent "{key:testkey;cmd:test;}" = false →
   testserver.ServeHTTP toy_json map_to_list Fprintf_v test_request
     = Some "{key:testkey;cmd:test;}").
Proof.
  apply (ServeHTTP_echo toy_json map_to_list Fprintf_v test_request
           "{key:testkey;cmd:test;}").
  - reflexivity.
  - reflexivity.
  - apply test_request_values. vm_compute. repeat constructor; discriminate.
  - vm_compute. reflexivity.
Defined.

Lemma ServeHTTP_format_hazard_witness :
  ∃ body : string,
    testserver.ServeHTTP toy_json map_to_list Fprintf_v verb_request = Some body ∧
    body ≠ "{cmd:" +:+ "%v" +:+ ";}".
Proof.
  apply (ServeHTTP_format_hazard toy_json map_to_list Fprintf_v verb_request
           "{cmd:" ";}").
  - apply Fprintf_v_missing.
  - reflexivity.
  - reflexivity.
  - reflexivity.
  - apply test_request_values. vm_compute. repeat constructor; discriminate.
  - vm_compute. reflexivity.
Defined.
